(** * ilp-plugin-http: the request/response bridge of [src/index.ts]

    A shallow embedding of the [PluginHttp] class: the Koa middleware that
    [connect] installs, [disconnect], [_fetchIldcp], [_generateUrl],
    [_getHttp2ClientForOrigin], [_fetch] and [sendData], followed by the
    properties of the bridge that the design document states.

    Conventions.
    - A JavaScript string is the list of its UTF-16 code units.
    - A [Buffer] is the list of its bytes.
    - The methods run in a monad that threads the plugin object and the
      objects it owns, may throw, and records every call that leaves the
      class (token checks, handler invocations, network requests, session
      creation and closing) in a trace.
    - The code is asynchronous.  A call of a method is modelled as one
      run, and a collaborator is described by what it returns; the
      invariant of the session table is also proved for the steps of the
      methods taken one by one, as calls in flight together see them. *)

From Stdlib Require Import ZArith NArith List Ascii String Bool Lia.
From stdpp Require Import base list relations pretty.
Import ListNotations.

Local Open Scope N_scope.

(** ** JavaScript strings *)

Module JS.

(** A string is a sequence of UTF-16 code units. *)
Abbreviation jsstring := (list N).

(** Literals: the code units of an ASCII literal are its bytes. *)
Definition js (s : string) : jsstring :=
  map N_of_ascii (list_ascii_of_string s).
Arguments js _%_string : simpl never.

Definition dot : N := 46.        (* "." *)
Definition dollar : N := 36.     (* "$" *)
Definition backtick : N := 96.   (* "`" *)
Definition ampersand : N := 38.  (* "&" *)
Definition quote : N := 39.      (* "'" *)

(** [a === b] on strings. *)
Fixpoint strict_equal (a b : jsstring) : bool :=
  match a, b with
  | [], [] => true
  | x :: a', y :: b' => (x =? y) && strict_equal a' b'
  | _, _ => false
  end.

(** [s.substring(start)] for a non-negative integer [start]: the code
    units from [min(start, s.length)] to the end. *)
Definition substring (start : nat) (s : jsstring) : jsstring := drop start s.

(** [s.split(sep)] for a separator of one code unit.  The result is never
    empty: [''.split('.')] is [['']]. *)
Fixpoint split (sep : N) (s : jsstring) : list jsstring :=
  match s with
  | [] => [[]]
  | c :: s' =>
      if c =? sep then [] :: split sep s'
      else match split sep s' with
           | piece :: pieces => (c :: piece) :: pieces
           | [] => [[c]]
           end
  end.

(** [a[0]] on an array of strings; [None] stands for [undefined]. *)
Definition first (a : list jsstring) : option jsstring := head a.

(** [s.startsWith(p)]: used by [indexOf] below. *)
Fixpoint startsWith (p s : jsstring) : bool :=
  match p, s with
  | [], _ => true
  | _ :: _, [] => false
  | a :: p', b :: s' => (a =? b) && startsWith p' s'
  end.

(** [s.indexOf(p)]: position of the first occurrence of [p] in [s]. *)
Fixpoint indexOf (p s : jsstring) : option nat :=
  if startsWith p s then Some 0%nat
  else match s with
       | [] => None
       | _ :: s' => S <$> indexOf p s'
       end.

(** ECMAScript's GetSubstitution for a string pattern (no capture
    groups): in the replacement text "$$" is a dollar sign, "$&" the
    matched text, "$`" the text before the match and "$'" the text
    after it; any other "$" stands for itself. *)
Fixpoint GetSubstitution (matched before after template : jsstring)
  : jsstring :=
  match template with
  | [] => []
  | c :: t =>
      if c =? dollar then
        match t with
        | [] => [dollar]
        | d :: t' =>
            if d =? dollar then
              dollar :: GetSubstitution matched before after t'
            else if d =? ampersand then
              matched ++ GetSubstitution matched before after t'
            else if d =? backtick then
              before ++ GetSubstitution matched before after t'
            else if d =? quote then
              after ++ GetSubstitution matched before after t'
            else dollar :: GetSubstitution matched before after t
        end
      else c :: GetSubstitution matched before after t
  end.

(** [s.replace(searchValue, replaceValue)] with two strings: only the
    first occurrence is replaced; without one, [s] is returned. *)
Definition replace (searchValue replaceValue s : jsstring) : jsstring :=
  match indexOf searchValue s with
  | None => s
  | Some pos =>
      let before := take pos s in
      let after := drop (pos + length searchValue) s in
      before ++ GetSubstitution searchValue before after replaceValue
             ++ after
  end.

(** [String(n)] for a non-negative integer. *)
Definition String_of_number (n : N) : jsstring :=
  map N_of_ascii (list_ascii_of_string (pretty n)).
Arguments String_of_number : simpl never.

(** [x || d] on strings: the empty string is falsy. *)
Definition or_default (x : option jsstring) (d : jsstring) : jsstring :=
  match x with
  | Some (c :: s) => c :: s
  | _ => d
  end.

End JS.
Export JS.

(** ** Constants of the module *)

Definition MAX_ILP_PACKET_LENGTH : N := 32767.

(** The character class of [INVALID_SEGMENT], negated in the source:
    [A-Za-z0-9_\-]. *)
Definition segment_char (c : N) : bool :=
  ((65 <=? c) && (c <=? 90))        (* A-Z *)
  || ((97 <=? c) && (c <=? 122))    (* a-z *)
  || ((48 <=? c) && (c <=? 57))     (* 0-9 *)
  || (c =? 95)                      (* _ *)
  || (c =? 45).                     (* - *)

(** [INVALID_SEGMENT.test(s)]: the regular expression [[^A-Za-z0-9_\-]]
    has no anchors and no flags, so it matches as soon as one code unit of
    [s] lies outside the class. *)
Definition INVALID_SEGMENT_test (s : jsstring) : bool :=
  existsb (fun c => negb (segment_char c)) s.

(** ** Data model *)

(** A [Buffer] is a sequence of bytes. *)
Abbreviation Buffer := (list Byte.byte).

(** The parts of the program that can raise an exception into the class
    without being part of it. *)
Inductive Collaborator :=
| AuthGate | RawBody | IlpPacket | ILDCP | DataHandler | UrlParser
| Transport | Runtime.

(** What a method can throw: an [Error] created in [index.ts], an HTTP
    error created by [ctx.throw] (or by [raw-body], which creates its
    errors the same way), or the rejection of a collaborator. *)
Inductive Exn :=
| Error (message : jsstring)
| HttpError (status : N) (message : jsstring)
| Foreign (from : Collaborator) (message : jsstring).

Inductive Completion (A : Type) :=
| Normal (a : A)
| Throw (e : Exn).
Arguments Normal {A} a.
Arguments Throw {A} e.

(** How a call into a collaborator ends: its promise is fulfilled with a
    value, or it is rejected (the call throws) with an error of the
    collaborator's own. *)
Inductive Outcome (A : Type) :=
| Fulfilled (a : A)
| Rejected (reason : jsstring).
Arguments Fulfilled {A} a.
Arguments Rejected {A} reason.

(** [IlpPacket.IlpPrepare]. *)
Record IlpPrepare := {
  amount : N;
  executionCondition : Buffer;
  expiresAt : jsstring;
  destination : jsstring;
  data : Buffer
}.

(** [ILDCP.IldcpResponse]. *)
Record IldcpResponse := {
  clientAddress : jsstring;
  assetScale : N;
  assetCode : jsstring
}.

(** [{ ...ildcp, clientAddress: a }]. *)
Definition with_clientAddress (a : jsstring) (ildcp : IldcpResponse)
  : IldcpResponse :=
  {| clientAddress := a;
     assetScale := assetScale ildcp;
     assetCode := assetCode ildcp |}.

(** [type PacketHandler = (data: Buffer) => Promise<Buffer>]: the promise
    is fulfilled with a buffer or rejected. *)
Definition PacketHandler : Type := Buffer -> Outcome Buffer.

(** A plain JavaScript object used as a dictionary with string keys: own
    properties are kept in insertion order, which is the order
    [Object.values] enumerates them in, and assigning to a key that exists
    overwrites it in place.  The keys used here are header names and URL
    origins: none is an array index and none names a property inherited
    from [Object.prototype]. *)
Module Obj.
Section Obj.
Context {V : Type}.

Definition t := list (jsstring * V).

Fixpoint get (o : t) (k : jsstring) : option V :=
  match o with
  | [] => None
  | (k', v) :: o' => if strict_equal k' k then Some v else get o' k
  end.

Fixpoint set (o : t) (k : jsstring) (v : V) : t :=
  match o with
  | [] => [(k, v)]
  | (k', v') :: o' =>
      if strict_equal k' k then (k', v) :: o'
      else (k', v') :: set o' k v
  end.

Definition keys (o : t) : list jsstring := map fst o.
Definition values (o : t) : list V := map snd o.
End Obj.
Arguments t : clear implicits.
End Obj.

(** [Http2FetchParams]: what [sendData] hands to the transport. *)
Record FetchParams := {
  fp_method : jsstring;
  fp_body : Buffer;
  fp_headers : Obj.t jsstring
}.

(** [FetchResponse]: the fields of a response that [sendData] reads;
    [buffer] is the outcome of [res.buffer()]. *)
Record FetchResponse := {
  ok : bool;
  status : N;
  buffer : Outcome Buffer
}.

(** The fields of [new URL(url)] that the program reads, together with
    [search], the query component that the program does not read. *)
Record URL := {
  origin : jsstring;
  pathname : jsstring;
  search : jsstring
}.

(** Modelled from the spec: the class [Http2Client] of [lib/http2], which
    [index.ts] imports, is not among the sources.  The spec calls an
    instance a long-lived session handle for one origin, created with the
    per-session request limit, that is either open or closed by
    [close()].  An instance is identified by its reference, the index at
    which it was allocated. *)
Record Http2Client := {
  h2_origin : jsstring;
  h2_maxRequestsPerSession : option N;
  h2_open : bool
}.

Abbreviation ref := nat.

(** [http.Server] as the program uses it. *)
Record Server := {
  srv_port : N;
  srv_listening : bool
}.

(** The private fields of [class PluginHttp].  [_incomingAuth] and
    [_outgoingAuth] are collaborators (below); [_app] holds nothing but
    the middleware. *)
Record PluginHttp := {
  _connected : bool;
  _multi : bool;
  _multiDelimiter : jsstring;
  _ildcp : option IldcpResponse;
  _port : N;
  _url : jsstring;
  _http2 : bool;
  _http2Clients : Obj.t ref;
  _http2MaxRequestsPerSession : option N;
  _name : jsstring;
  _sendIlpDestination : bool;
  _dataHandler : option PacketHandler;
  _httpServer : option Server
}.

Definition set_connected (b : bool) (p : PluginHttp) : PluginHttp :=
  {| _connected := b; _multi := _multi p;
     _multiDelimiter := _multiDelimiter p; _ildcp := _ildcp p;
     _port := _port p; _url := _url p; _http2 := _http2 p;
     _http2Clients := _http2Clients p;
     _http2MaxRequestsPerSession := _http2MaxRequestsPerSession p;
     _name := _name p; _sendIlpDestination := _sendIlpDestination p;
     _dataHandler := _dataHandler p; _httpServer := _httpServer p |}.

Definition set_ildcp (i : option IldcpResponse) (p : PluginHttp)
  : PluginHttp :=
  {| _connected := _connected p; _multi := _multi p;
     _multiDelimiter := _multiDelimiter p; _ildcp := i;
     _port := _port p; _url := _url p; _http2 := _http2 p;
     _http2Clients := _http2Clients p;
     _http2MaxRequestsPerSession := _http2MaxRequestsPerSession p;
     _name := _name p; _sendIlpDestination := _sendIlpDestination p;
     _dataHandler := _dataHandler p; _httpServer := _httpServer p |}.

Definition set_http2Clients (c : Obj.t ref) (p : PluginHttp) : PluginHttp :=
  {| _connected := _connected p; _multi := _multi p;
     _multiDelimiter := _multiDelimiter p; _ildcp := _ildcp p;
     _port := _port p; _url := _url p; _http2 := _http2 p;
     _http2Clients := c;
     _http2MaxRequestsPerSession := _http2MaxRequestsPerSession p;
     _name := _name p; _sendIlpDestination := _sendIlpDestination p;
     _dataHandler := _dataHandler p; _httpServer := _httpServer p |}.

Definition set_dataHandler (h : option PacketHandler) (p : PluginHttp)
  : PluginHttp :=
  {| _connected := _connected p; _multi := _multi p;
     _multiDelimiter := _multiDelimiter p; _ildcp := _ildcp p;
     _port := _port p; _url := _url p; _http2 := _http2 p;
     _http2Clients := _http2Clients p;
     _http2MaxRequestsPerSession := _http2MaxRequestsPerSession p;
     _name := _name p; _sendIlpDestination := _sendIlpDestination p;
     _dataHandler := h; _httpServer := _httpServer p |}.

Definition set_httpServer (s : option Server) (p : PluginHttp) : PluginHttp :=
  {| _connected := _connected p; _multi := _multi p;
     _multiDelimiter := _multiDelimiter p; _ildcp := _ildcp p;
     _port := _port p; _url := _url p; _http2 := _http2 p;
     _http2Clients := _http2Clients p;
     _http2MaxRequestsPerSession := _http2MaxRequestsPerSession p;
     _name := _name p; _sendIlpDestination := _sendIlpDestination p;
     _dataHandler := _dataHandler p; _httpServer := s |}.

(** *** The constructor *)

Record IncomingOpts := {
  in_port : N;
  in_secret : option jsstring;
  in_secretToken : option jsstring
}.

Record OutgoingOpts := {
  out_url : jsstring;
  out_secret : option jsstring;
  out_secretToken : option jsstring;
  out_http2 : option bool;
  out_http2MaxRequestsPerSession : option N;
  out_name : option jsstring;
  out_sendIlpDestination : option bool;
  out_tokenExpiry : option N
}.

Record PluginHttpOpts := {
  multi : option bool;
  multiDelimiter : option jsstring;
  ildcp : option IldcpResponse;
  incoming : IncomingOpts;
  outgoing : OutgoingOpts
}.

(** [!!x] on an optional boolean. *)
Definition truthy (x : option bool) : bool :=
  match x with Some true => true | _ => false end.

Definition constructor (opts : PluginHttpOpts) : PluginHttp :=
  let port := in_port (incoming opts) in
  {| _connected := false;
     _multi := truthy (multi opts);
     _multiDelimiter := or_default (multiDelimiter opts) (js "%");
     _ildcp := ildcp opts;
     _port := port;
     _url := out_url (outgoing opts);
     _http2 := truthy (out_http2 (outgoing opts));
     _http2Clients := [];
     _http2MaxRequestsPerSession :=
       out_http2MaxRequestsPerSession (outgoing opts);
     _name := or_default (out_name (outgoing opts)) (String_of_number port);
     _sendIlpDestination := truthy (out_sendIlpDestination (outgoing opts));
     _dataHandler := None;
     _httpServer := None |}.

(** ** Collaborators, the world and the trace *)

(** The collaborators of the class, each described by what it answers.
    - [verifyToken], [getToken]: the incoming and the outgoing [Auth]
      object of [lib/auth].
    - [deserializeIlpPrepare]: [ilp-packet]; throws on a buffer that is
      not a Prepare packet.
    - [serializeIldcpRequest], [deserializeIldcpResponse],
      [serializeIldcpResponse]: [ilp-protocol-ildcp]; its [fetch] is
      [ILDCP_fetch] below.
    - [parseURL]: [new URL(url)], which throws on an invalid URL.
    - [node_fetch]: the one-shot [fetch] of [node-fetch].
    - [http2_fetch]: [Http2Client.fetch] of [lib/http2], on a given
      session object. *)
Record Collaborators := {
  verifyToken : jsstring -> bool;
  getToken : Outcome jsstring;
  deserializeIlpPrepare : Buffer -> Outcome IlpPrepare;
  serializeIldcpRequest : Buffer;
  deserializeIldcpResponse : Buffer -> Outcome IldcpResponse;
  serializeIldcpResponse : IldcpResponse -> Outcome Buffer;
  parseURL : jsstring -> Outcome URL;
  node_fetch : jsstring -> FetchParams -> Outcome FetchResponse;
  http2_fetch :
    ref -> Http2Client -> jsstring -> FetchParams -> Outcome FetchResponse
}.

(** Every call that leaves the class. *)
Inductive Event :=
| EvVerifyToken (token : jsstring)
| EvGetToken
| EvReadBody
| EvHandler (packet : Buffer)
| EvIlpDeserialize (packet : Buffer)
| EvNewHttp2Client (r : ref) (origin : jsstring) (maxRequests : option N)
| EvHttp2Fetch (r : ref) (path : jsstring) (opts : FetchParams)
| EvFetch (url : jsstring) (opts : FetchParams)
| EvCloseHttp2Client (r : ref)
| EvListen (port : N)
| EvCloseServer
| EvEmit (name : jsstring).

(** A request put on the network, over either transport. *)
Definition is_network (e : Event) : bool :=
  match e with
  | EvHttp2Fetch _ _ _ | EvFetch _ _ => true
  | _ => false
  end.

(** An invocation of the registered packet handler. *)
Definition is_handler_call (e : Event) : bool :=
  match e with
  | EvHandler _ => true
  | _ => false
  end.

(** The plugin object and the [Http2Client] objects allocated so far. *)
Record World := {
  this : PluginHttp;
  heap : list Http2Client
}.

Definition M (A : Type) : Type :=
  World -> Completion A * World * list Event.

Definition ret {A} (a : A) : M A := fun w => (Normal a, w, []).

Definition bind {A B} (m : M A) (k : A -> M B) : M B :=
  fun w =>
    match m w with
    | (Normal a, w', t) =>
        match k a w' with
        | (r, w'', t') => (r, w'', t ++ t')
        end
    | (Throw e, w', t) => (Throw e, w', t)
    end.

Notation "x <- m ;; k" := (bind m (fun x => k))
  (at level 100, m at next level, right associativity).
Notation "m ;; k" := (bind m (fun _ => k))
  (at level 100, right associativity).

Definition throw {A} (e : Exn) : M A := fun w => (Throw e, w, []).

(** Awaiting a collaborator: a rejection is thrown on, marked with where
    it came from. *)
Definition settle {A} (from : Collaborator) (o : Outcome A) : Completion A :=
  match o with
  | Fulfilled a => Normal a
  | Rejected reason => Throw (Foreign from reason)
  end.

Definition await {A} (from : Collaborator) (o : Outcome A) : M A :=
  fun w => (settle from o, w, []).

Definition emit (e : Event) : M unit := fun w => (Normal tt, w, [e]).

Definition get_this : M PluginHttp := fun w => (Normal (this w), w, []).

Definition get_heap : M (list Http2Client) :=
  fun w => (Normal (heap w), w, []).

Definition update_this (f : PluginHttp -> PluginHttp) : M unit :=
  fun w => (Normal tt, {| this := f (this w); heap := heap w |}, []).

(** [for (const x of xs) body(x)]. *)
Fixpoint for_of {A} (xs : list A) (body : A -> M unit) : M unit :=
  match xs with
  | [] => ret tt
  | x :: xs' => body x ;; for_of xs' body
  end.

Definition result {A} (r : Completion A * World * list Event) : Completion A :=
  fst (fst r).
Definition world {A} (r : Completion A * World * list Event) : World :=
  snd (fst r).
Definition trace {A} (r : Completion A * World * list Event) : list Event :=
  snd r.

(** ** The HTTP side: Koa and raw-body *)

Inductive Body :=
| Text (s : jsstring)
| Binary (b : Buffer).

(** The Koa context of one request: the method, the request headers (Node
    presents their names in lower case), the bytes that the request
    stream delivers, and the response body assigned so far. *)
Record Context := {
  ctx_method : jsstring;
  ctx_headers : Obj.t jsstring;
  ctx_req : Buffer;
  ctx_body : option Body
}.

(** [ctx.get(field)]: the header, or the empty string without it. *)
Definition ctx_get (ctx : Context) (field : jsstring) : jsstring :=
  match Obj.get (ctx_headers ctx) field with
  | Some v => v
  | None => []
  end.

(** [ctx.body = b]. *)
Definition set_body (b : Body) (ctx : Context) : Context :=
  {| ctx_method := ctx_method ctx; ctx_headers := ctx_headers ctx;
     ctx_req := ctx_req ctx; ctx_body := Some b |}.

(** [raw(ctx.req, { limit })]: the whole body, or a 413 error when it is
    longer than the limit. *)
Definition raw (ctx : Context) (limit : N) : M Buffer :=
  emit EvReadBody ;;
  if limit <? N.of_nat (length (ctx_req ctx))
  then throw (HttpError 413 (js "request entity too large"))
  else ret (ctx_req ctx).

(** The reason phrases of the statuses that the program produces. *)
Definition reason_phrase (st : N) : option jsstring :=
  match st with
  | 401 => Some (js "Unauthorized")
  | 413 => Some (js "Payload Too Large")
  | 500 => Some (js "Internal Server Error")
  | 502 => Some (js "Bad Gateway")
  | _ => None
  end.

Record Response := {
  res_status : N;
  res_body : Body
}.

Definition internal_server_error : Response :=
  {| res_status := 500; res_body := Text (js "Internal Server Error") |}.

(** What Koa answers once the middleware has run: 200 with the assigned
    body (404 when none was assigned); for an HTTP error its status, with
    the message of the error below 500 and the reason phrase from 500 on;
    500 for any other exception. *)
Definition respond (r : Completion Context) : Response :=
  match r with
  | Normal ctx =>
      match ctx_body ctx with
      | Some b => {| res_status := 200; res_body := b |}
      | None => {| res_status := 404; res_body := Text (js "Not Found") |}
      end
  | Throw (HttpError st msg) =>
      match reason_phrase st with
      | Some phrase =>
          {| res_status := st;
             res_body := Text (if st <? 500 then msg else phrase) |}
      | None => internal_server_error
      end
  | Throw _ => internal_server_error
  end.

(** ** The methods of [PluginHttp] *)

Section Methods.

Variable env : Collaborators.

(** *** Objects owned by the plugin *)

(** Modelled from the spec: the constructor of [Http2Client],
    [new Http2Client(origin, { maxRequestsPerSession })], gives a new open
    session object, at a reference that was not in use. *)
Definition Http2Client_new (origin : jsstring) (maxRequests : option N)
  : M ref :=
  fun w =>
    let r := length (heap w) in
    (Normal r,
     {| this := this w;
        heap := heap w ++ [{| h2_origin := origin;
                              h2_maxRequestsPerSession := maxRequests;
                              h2_open := true |}] |},
     [EvNewHttp2Client r origin maxRequests]).

(** Modelled from the spec: a session of [lib/http2] once it is closed. *)
Definition closed (c : Http2Client) : Http2Client :=
  {| h2_origin := h2_origin c;
     h2_maxRequestsPerSession := h2_maxRequestsPerSession c;
     h2_open := false |}.

(** Modelled from the spec: [client.close()] of [lib/http2] closes the
    session and leaves the others alone. *)
Definition Http2Client_close (r : ref) : M unit :=
  fun w =>
    (Normal tt,
     {| this := this w; heap := alter closed r (heap w) |},
     [EvCloseHttp2Client r]).

(** [client.fetch(path, opts)]: the request is issued over the session
    [client], and what comes back is up to the collaborator [http2_fetch].
    On [undefined] the call is a [TypeError]. *)
Definition Http2Client_fetch (client : option ref) (path : jsstring)
    (opts : FetchParams) : M FetchResponse :=
  match client with
  | None => throw (Foreign Runtime (js "TypeError"))
  | Some r =>
      objects <- get_heap ;;
      match objects !! r with
      | None => throw (Foreign Runtime (js "TypeError"))
      | Some session =>
          emit (EvHttp2Fetch r path opts) ;;
          await Transport (http2_fetch env r session path opts)
      end
  end.

(** [fetch(url, opts)] of [node-fetch]. *)
Definition fetch (url : jsstring) (opts : FetchParams) : M FetchResponse :=
  emit (EvFetch url opts) ;;
  await Transport (node_fetch env url opts).

(** [handler(packet)]. *)
Definition call_handler (handler : PacketHandler) (packet : Buffer)
  : M Buffer :=
  emit (EvHandler packet) ;;
  await DataHandler (handler packet).

(** [IlpPacket.deserializeIlpPrepare(packet)]. *)
Definition IlpPacket_deserializeIlpPrepare (packet : Buffer)
  : M IlpPrepare :=
  emit (EvIlpDeserialize packet) ;;
  await IlpPacket (deserializeIlpPrepare env packet).

(** [ILDCP.fetch(handler)]: the discovery request goes through the
    handler, and its answer is parsed as a discovery response. *)
Definition ILDCP_fetch (handler : PacketHandler) : M IldcpResponse :=
  answer <- call_handler handler (serializeIldcpRequest env) ;;
  await ILDCP (deserializeIldcpResponse env answer).

(** *** [_verifyToken], [_getToken] *)

Definition _verifyToken (token : jsstring) : M bool :=
  emit (EvVerifyToken token) ;;
  ret (verifyToken env token).

Definition _getToken : M jsstring :=
  emit EvGetToken ;;
  await AuthGate (getToken env).

(** *** [_fetchIldcp] *)

Definition _fetchIldcp : M IldcpResponse :=
  self <- get_this ;;
  match _ildcp self with
  | None =>
      match _dataHandler self with
      | Some handler =>
          fetched <- ILDCP_fetch handler ;;
          update_this (set_ildcp (Some fetched)) ;;
          ret fetched
      | None =>
          throw (Error (js "data handler must be registered to fetch ildcp"))
      end
  | Some cached => ret cached
  end.

(** *** [_generateUrl] *)

(** A value that may be [undefined], where a string is expected. *)
Definition ToString (x : option jsstring) : jsstring :=
  match x with
  | Some s => s
  | None => js "undefined"
  end.

Definition _generateUrl (destination : jsstring) : M jsstring :=
  ildcp <- _fetchIldcp ;;
  let segment :=
    first (split dot
             (substring (length (clientAddress ildcp) + 1) destination)) in
  if INVALID_SEGMENT_test (ToString segment)
  then throw (Error (js "invalid address segment"))
  else
    self <- get_this ;;
    ret (replace (_multiDelimiter self) (ToString segment) (_url self)).

(** *** [_getHttp2ClientForOrigin] *)

Definition _getHttp2ClientForOrigin (origin : jsstring) : M (option ref) :=
  self <- get_this ;;
  (match Obj.get (_http2Clients self) origin with
   | None =>
       client <- Http2Client_new origin (_http2MaxRequestsPerSession self) ;;
       update_this
         (fun p => set_http2Clients (Obj.set (_http2Clients p) origin client) p)
   | Some _ => ret tt
   end) ;;
  self <- get_this ;;
  ret (Obj.get (_http2Clients self) origin).

(** *** [_fetch] *)

Definition _fetch (url : jsstring) (opts : FetchParams) : M FetchResponse :=
  self <- get_this ;;
  if _http2 self then
    parsed <- await UrlParser (parseURL env url) ;;
    client <- _getHttp2ClientForOrigin (origin parsed) ;;
    Http2Client_fetch client (pathname parsed) opts
  else fetch url opts.

(** *** [sendData] *)

Definition sendData (data : Buffer) : M Buffer :=
  self <- get_this ;;
  if negb (_connected self)
  then throw (Error (js "plugin is not connected."))
  else
    token <- _getToken ;;
    self <- get_this ;;
    let headers : Obj.t jsstring :=
      [(js "Authorization", token);
       (js "Content-Type", js "application/ilp+octet-stream");
       (js "ILP-Peer-Name", _name self)] in
    target <-
      (if _multi self || _sendIlpDestination self then
         prepare <- IlpPacket_deserializeIlpPrepare data ;;
         let headers :=
           if _sendIlpDestination self
           then Obj.set headers (js "ILP-Destination") (destination prepare)
           else headers in
         (if _multi self then
            url <- _generateUrl (destination prepare) ;;
            ret (url, headers)
          else ret (_url self, headers))
       else ret (_url self, headers)) ;;
    res <- _fetch (fst target)
             {| fp_method := js "POST"; fp_body := data;
                fp_headers := snd target |} ;;
    if negb (ok res)
    then throw (Error (js "failed to fetch. code="
                         ++ String_of_number (status res)))
    else await Transport (buffer res).

(** *** The middleware installed by [connect] *)

Definition middleware (ctx : Context) : M Context :=
  if strict_equal (ctx_method ctx) (js "GET") then
    ret (set_body (Text (js "OK")) ctx)
  else
    verified <- _verifyToken (ctx_get ctx (js "authorization")) ;;
    if negb verified
    then throw (HttpError 401 (js "invalid authorization"))
    else
      self <- get_this ;;
      if negb (_connected self)
      then throw (HttpError 502 (js "server is closed"))
      else
        packet <- raw ctx MAX_ILP_PACKET_LENGTH ;;
        let dispatch : M Context :=
          self <- get_this ;;
          match _dataHandler self with
          | None => throw (HttpError 502 (js "no handler registered."))
          | Some handler =>
              answer <- call_handler handler packet ;;
              ret (set_body (Binary answer) ctx)
          end in
        if _multi self then
          parsed <- IlpPacket_deserializeIlpPrepare packet ;;
          let name := ctx_get ctx (js "ilp-peer-name") in
          if strict_equal (destination parsed) (js "peer.config") then
            ildcp <- _fetchIldcp ;;
            answer <-
              await ILDCP (serializeIldcpResponse env
                (with_clientAddress
                   (clientAddress ildcp ++ js "." ++ name) ildcp)) ;;
            ret (set_body (Binary answer) ctx)
          else dispatch
        else dispatch.

(** *** [connect], [disconnect] *)

Definition connect : M unit :=
  self <- get_this ;;
  if _connected self then ret tt
  else
    emit (EvListen (_port self)) ;;
    update_this
      (set_httpServer
         (Some {| srv_port := _port self; srv_listening := true |})) ;;
    update_this (set_connected true) ;;
    emit (EvEmit (js "connect")).

(** [this._httpServer.close()]. *)
Definition httpServer_close : M unit :=
  self <- get_this ;;
  match _httpServer self with
  | None => throw (Foreign Runtime (js "TypeError"))
  | Some server =>
      emit EvCloseServer ;;
      update_this
        (set_httpServer
           (Some {| srv_port := srv_port server; srv_listening := false |}))
  end.

Definition disconnect : M unit :=
  self <- get_this ;;
  if negb (_connected self) then ret tt
  else
    for_of (Obj.values (_http2Clients self)) Http2Client_close ;;
    update_this (set_connected false) ;;
    httpServer_close ;;
    emit (EvEmit (js "disconnect")).

(** *** The boilerplate methods *)


Definition registerDataHandler (handler : PacketHandler) : M unit :=
  update_this (set_dataHandler (Some handler)).

Definition deregisterDataHandler : M unit :=
  update_this (set_dataHandler None).

Definition registerMoneyHandler : M unit := ret tt.
Definition deregisterMoneyHandler : M unit := ret tt.
Definition sendMoney : M unit := ret tt.

End Methods.

(** ** Concrete collaborators, to run the methods on examples

    The theorems below hold for all collaborators.  To evaluate the
    methods on concrete requests, this section gives one instance: a
    reader and writer of the OER wire format of [ilp-packet] and
    [ilp-protocol-ildcp], a URL splitter for URLs of the shape
    [scheme://authority/path?query#fragment], a static bearer token, and
    a network that echoes what it is sent. *)

Module Wire.

Definition byte_of (n : N) : Byte.byte :=
  match Byte.of_N n with
  | Some b => b
  | None => Byte.x00
  end.

(** [Buffer.from(s, 'ascii')] and [b.toString('ascii')]. *)
Definition ascii_bytes (s : jsstring) : Buffer :=
  map (fun c => byte_of (N.land c 255)) s.
Definition ascii_string (b : Buffer) : jsstring :=
  map (fun x => N.land (Byte.to_N x) 127) b.

Definition zeros (n : nat) : Buffer := replicate n Byte.x00.

Fixpoint big_endian (acc : N) (bs : Buffer) : N :=
  match bs with
  | [] => acc
  | b :: bs' => big_endian (acc * 256 + Byte.to_N b) bs'
  end.

Definition read (n : nat) (b : Buffer) : option (Buffer * Buffer) :=
  if (length b <? n)%nat then None else Some (take n b, drop n b).

Definition readLengthPrefix (b : Buffer) : option (nat * Buffer) :=
  match b with
  | [] => None
  | l :: rest =>
      let n := Byte.to_N l in
      if n <? 128 then Some (N.to_nat n, rest)
      else if n =? 128 then None
      else
        '(digits, rest') ← read (N.to_nat (n - 128)) rest;
        Some (N.to_nat (big_endian 0 digits), rest')
  end.

Definition readVarOctetString (b : Buffer) : option (Buffer * Buffer) :=
  '(n, rest) ← readLengthPrefix b;
  read n rest.

(** Lengths below 65536 are enough for packets of at most 32767 bytes. *)
Definition writeVarOctetString (b : Buffer) : Buffer :=
  let n := N.of_nat (length b) in
  if n <? 128 then byte_of n :: b
  else if n <? 256 then byte_of 129 :: byte_of n :: b
  else byte_of 130 :: byte_of (n / 256) :: byte_of (n mod 256) :: b.

Definition TYPE_ILP_PREPARE : N := 12.
Definition TYPE_ILP_FULFILL : N := 13.
Definition TYPE_ILP_REJECT : N := 14.

Definition deserializeEnvelope (b : Buffer) : option (N * Buffer) :=
  match b with
  | [] => None
  | type :: rest =>
      '(contents, _) ← readVarOctetString rest;
      Some (Byte.to_N type, contents)
  end.

Definition out_of_bounds {A} : Outcome A :=
  Rejected (js "Tried to read beyond the end of the buffer").

Definition deserializeIlpPrepare (b : Buffer) : Outcome IlpPrepare :=
  match deserializeEnvelope b with
  | None => out_of_bounds
  | Some (type, contents) =>
      if negb (type =? TYPE_ILP_PREPARE)
      then Rejected (js "Packet has incorrect type")
      else
        match
          '(amt, r1) ← read 8 contents;
          '(expiry, r2) ← read 17 r1;
          '(condition, r3) ← read 32 r2;
          '(dest, r4) ← readVarOctetString r3;
          '(payload, _) ← readVarOctetString r4;
          Some {| amount := big_endian 0 amt;
                  executionCondition := condition;
                  expiresAt := ascii_string expiry;
                  destination := ascii_string dest;
                  data := payload |}
        with
        | Some p => Fulfilled p
        | None => out_of_bounds
        end
  end.

(** A Prepare packet of amount 0 with the given destination and data. *)
Definition prepare_to (dest : jsstring) (payload : Buffer) : Buffer :=
  byte_of TYPE_ILP_PREPARE ::
    writeVarOctetString
      (zeros 8 ++ ascii_bytes (js "20301231235959999") ++ zeros 32
         ++ writeVarOctetString (ascii_bytes dest)
         ++ writeVarOctetString payload).

Definition serializeIlpFulfill (payload : Buffer) : Buffer :=
  byte_of TYPE_ILP_FULFILL ::
    writeVarOctetString (zeros 32 ++ writeVarOctetString payload).

Definition serializeIlpReject : Buffer :=
  byte_of TYPE_ILP_REJECT ::
    writeVarOctetString
      (ascii_bytes (js "F00") ++ writeVarOctetString []
         ++ writeVarOctetString [] ++ writeVarOctetString []).

Definition serializeIldcpRequest : Buffer := prepare_to (js "peer.config") [].

Definition serializeIldcpResponse (r : IldcpResponse) : Outcome Buffer :=
  Fulfilled
    (serializeIlpFulfill
       (writeVarOctetString (ascii_bytes (clientAddress r))
          ++ [byte_of (assetScale r)]
          ++ writeVarOctetString (ascii_bytes (assetCode r)))).

Definition deserializeIldcpResponse (b : Buffer) : Outcome IldcpResponse :=
  match deserializeEnvelope b with
  | None => out_of_bounds
  | Some (type, contents) =>
      if negb (type =? TYPE_ILP_FULFILL)
      then Rejected (js "ILDCP error")
      else
        match
          '(_, r1) ← read 32 contents;
          '(payload, _) ← readVarOctetString r1;
          '(addr, r2) ← readVarOctetString payload;
          '(scale, r3) ← read 1 r2;
          '(code, _) ← readVarOctetString r3;
          Some {| clientAddress := ascii_string addr;
                  assetScale := big_endian 0 scale;
                  assetCode := ascii_string code |}
        with
        | Some r => Fulfilled r
        | None => out_of_bounds
        end
  end.

End Wire.

Module SimpleURL.

(** The longest prefix of [s] without a code unit of [stops]. *)
Fixpoint until (stops : jsstring) (s : jsstring) : jsstring :=
  match s with
  | [] => []
  | c :: s' =>
      if existsb (N.eqb c) stops then [] else c :: until stops s'
  end.

Definition parse (url : jsstring) : Outcome URL :=
  match indexOf (js "://") url with
  | None => Rejected (js "Invalid URL")
  | Some i =>
      let scheme := take i url in
      let rest := drop (i + 3) url in
      let authority := until (js "/?#") rest in
      let rest := drop (length authority) rest in
      let path := until (js "?#") rest in
      let rest := drop (length path) rest in
      let query := until (js "#") rest in
      match scheme, authority with
      | _ :: _, _ :: _ =>
          Fulfilled
            {| origin := scheme ++ js "://" ++ authority;
               pathname := match path with [] => js "/" | _ => path end;
               search := match query with [_] => [] | _ => query end |}
      | _, _ => Rejected (js "Invalid URL")
      end
  end.

End SimpleURL.

(** A peer that answers every request with status [code] and echoes the
    body it was sent. *)
Definition echo (code : N) (opts : FetchParams) : Outcome FetchResponse :=
  Fulfilled {| ok := (200 <=? code) && (code <? 300);
               status := code;
               buffer := Fulfilled (fp_body opts) |}.

Definition loopback (code : N) : Collaborators :=
  {| verifyToken := fun token => strict_equal token (js "Bearer in");
     getToken := Fulfilled (js "Bearer out");
     deserializeIlpPrepare := Wire.deserializeIlpPrepare;
     serializeIldcpRequest := Wire.serializeIldcpRequest;
     deserializeIldcpResponse := Wire.deserializeIldcpResponse;
     serializeIldcpResponse := Wire.serializeIldcpResponse;
     parseURL := SimpleURL.parse;
     node_fetch := fun _ opts => echo code opts;
     http2_fetch := fun _ _ _ opts => echo code opts |}.

(** A node [g.node1] that forwards to [https://example.com/%/ilp]. *)
Definition node1_opts (multi_tenant h2 : bool) (url : jsstring)
  : PluginHttpOpts :=
  {| multi := Some multi_tenant;
     multiDelimiter := None;
     ildcp := Some {| clientAddress := js "g.node1"; assetScale := 9;
                      assetCode := js "XRP" |};
     incoming := {| in_port := 8080; in_secret := None;
                    in_secretToken := Some (js "in") |};
     outgoing := {| out_url := url;
                    out_secret := None;
                    out_secretToken := Some (js "out");
                    out_http2 := Some h2;
                    out_http2MaxRequestsPerSession := None;
                    out_name := None;
                    out_sendIlpDestination := None;
                    out_tokenExpiry := None |} |}.

Definition start (opts : PluginHttpOpts) : World :=
  {| this := constructor opts; heap := [] |}.

(** The world after [connect()] on a new plugin. *)
Definition connected (opts : PluginHttpOpts) : World :=
  world (connect (start opts)).

(** A POST with the given bearer token, peer name and body. *)
Definition post (token name : jsstring) (body : Buffer) : Context :=
  {| ctx_method := js "POST";
     ctx_headers := [(js "authorization", token); (js "ilp-peer-name", name)];
     ctx_req := body;
     ctx_body := None |}.

(** ** Vocabulary of the properties *)

(** The longest prefix of [s] that does not contain [sep]: the first
    [sep]-delimited segment of [s]. *)
Fixpoint leading (sep : N) (s : jsstring) : jsstring :=
  match s with
  | [] => []
  | c :: s' => if c =? sep then [] else c :: leading sep s'
  end.

(** [p] occurs in [s] between [pre] and [post], and nowhere earlier. *)
Definition first_occurrence (p s pre post : jsstring) : Prop :=
  s = pre ++ p ++ post /\
  forall pre' post', s = pre' ++ p ++ post' -> (length pre <= length pre')%nat.

(** A trace without a request on the network, and one without an
    invocation of the packet handler. *)
Definition no_network (t : list Event) : Prop :=
  Forall (fun e => is_network e = false) t.
Definition no_handler_call (t : list Event) : Prop :=
  Forall (fun e => is_handler_call e = false) t.

(** What the peer answered to a request of the trace, in world [w]. *)
Definition network_answer (env : Collaborators) (w : World) (e : Event)
  : option (Outcome FetchResponse) :=
  match e with
  | EvFetch url opts => Some (node_fetch env url opts)
  | EvHttp2Fetch r path opts =>
      match heap w !! r with
      | Some session => Some (http2_fetch env r session path opts)
      | None => None
      end
  | _ => None
  end.

(** The run [r], with the trace [t] before it. *)
Definition after {A} (t : list Event) (r : Completion A * World * list Event)
  : Completion A * World * list Event :=
  (result r, world r, t ++ trace r).

(** The headers that [sendData] builds. *)
Definition outgoing_headers (token name : jsstring) (dest : option jsstring)
  : Obj.t jsstring :=
  [(js "Authorization", token);
   (js "Content-Type", js "application/ilp+octet-stream");
   (js "ILP-Peer-Name", name)]
  ++ match dest with
     | Some d => [(js "ILP-Destination", d)]
     | None => []
     end.

(** What [sendData] makes of the outcome of its request. *)
Definition send_result (answer : Outcome FetchResponse) : Completion Buffer :=
  match answer with
  | Rejected reason => Throw (Foreign Transport reason)
  | Fulfilled res =>
      if ok res then settle Transport (buffer res)
      else Throw (Error (js "failed to fetch. code="
                           ++ String_of_number (status res)))
  end.

(** The session table is well formed: one entry per origin, one origin
    per session, and every entry refers to an allocated session object
    for that origin. *)
Definition table_ok (w : World) : Prop :=
  let table := _http2Clients (this w) in
  NoDup (Obj.keys table) /\
  NoDup (Obj.values table) /\
  forall o r, (o, r) ∈ table ->
    exists session, heap w !! r = Some session /\ h2_origin session = o.

(** The calls that the owner of the plugin and its peers can make. *)
Inductive Call :=
| CallConnect
| CallDisconnect
| CallSendData (packet : Buffer)
| CallRequest (ctx : Context)
| CallRegisterDataHandler (handler : PacketHandler)
| CallDeregisterDataHandler
| CallRegisterMoneyHandler
| CallDeregisterMoneyHandler
| CallSendMoney.

Definition run_call (env : Collaborators) (c : Call) (w : World) : World :=
  match c with
  | CallConnect => world (connect w)
  | CallDisconnect => world (disconnect w)
  | CallSendData packet => world (sendData env packet w)
  | CallRequest ctx => world (middleware env ctx w)
  | CallRegisterDataHandler handler => world (registerDataHandler handler w)
  | CallDeregisterDataHandler => world (deregisterDataHandler w)
  | CallRegisterMoneyHandler => world (registerMoneyHandler w)
  | CallDeregisterMoneyHandler => world (deregisterMoneyHandler w)
  | CallSendMoney => world (sendMoney w)
  end.

(** The worlds that a plugin constructed with [opts] can be in. *)
Inductive reachable (env : Collaborators) (opts : PluginHttpOpts)
  : World -> Prop :=
| reachable_start : reachable env opts (start opts)
| reachable_call w c :
    reachable env opts w -> reachable env opts (run_call env c w).

(** The world after a session for [origin] has been created and stored
    in the table. *)
Definition with_session (origin : jsstring) (w : World) : World :=
  {| this :=
       set_http2Clients
         (_http2Clients (this w) ++ [(origin, length (heap w))]) (this w);
     heap :=
       heap w ++ [{| h2_origin := origin;
                     h2_maxRequestsPerSession :=
                       _http2MaxRequestsPerSession (this w);
                     h2_open := true |}] |}.

(** A computation keeps a property of the world. *)
Definition preserves {A} (P : World -> Prop) (m : M A) : Prop :=
  forall w, P w -> P (world (m w)).

(** An update of the plugin object that leaves the session table alone. *)
Definition keeps_clients (f : PluginHttp -> PluginHttp) : Prop :=
  forall p, _http2Clients (f p) = _http2Clients p.

(** The steps by which the methods change the world: an assignment to a
    field of the plugin other than the session table, the synchronous
    lookup-or-create of [_getHttp2ClientForOrigin], and [close()] on a
    session.  A method suspends only between such steps, so the worlds
    that calls in flight at the same time can see are those that a
    sequence of steps leads to. *)
Inductive step : World -> World -> Prop :=
| step_update f w :
    keeps_clients f -> step w {| this := f (this w); heap := heap w |}
| step_session origin w :
    step w (world (_getHttp2ClientForOrigin origin w))
| step_close r w :
    step w (world (Http2Client_close r w)).

(** The worlds of a plugin constructed with [opts], at any time. *)
Definition at_some_time (opts : PluginHttpOpts) (w : World) : Prop :=
  rtc step (start opts) w.

(** Every event of every run of [m] satisfies [P]. *)
Definition emits {A} (P : Event -> Prop) (m : M A) : Prop :=
  forall w, Forall P (trace (m w)).

(** The last step of [sendData]: the request to the resolved URL and the
    check of the response. *)
Definition post_to (env : Collaborators) (url : jsstring) (packet : Buffer)
    (headers : Obj.t jsstring) : M Buffer :=
  res <- _fetch env url
           {| fp_method := js "POST"; fp_body := packet;
              fp_headers := headers |} ;;
  if negb (ok res)
  then throw (Error (js "failed to fetch. code="
                       ++ String_of_number (status res)))
  else await Transport (buffer res).

(** A run ends as [sendData] prescribes for the answer to its request:
    whatever request of its trace the peer answered, the result of the
    run is made of that answer. *)
Definition answered_as_sent (env : Collaborators)
    (r : Completion Buffer * World * list Event) : Prop :=
  forall e answer,
    e ∈ trace r ->
    network_answer env (world r) e = Some answer ->
    result r = send_result answer.

(** The session objects after [close()] on each of [rs] in turn. *)
Definition close_refs (rs : list ref) (objects : list Http2Client)
  : list Http2Client :=
  foldl (fun objects r => alter closed r objects) objects rs.

(** The discovery response of the node [g.node1]. *)
Definition node1_ildcp : IldcpResponse :=
  {| clientAddress := js "g.node1"; assetScale := 9; assetCode := js "XRP" |}.

(** The options [opts], without a discovery response given at
    construction. *)
Definition undiscovered (opts : PluginHttpOpts) : PluginHttpOpts :=
  {| multi := multi opts;
     multiDelimiter := multiDelimiter opts;
     ildcp := None;
     incoming := incoming opts;
     outgoing := outgoing opts |}.

(** A packet handler that answers every packet with the discovery
    response of [g.node1]. *)
Definition node1_handler : PacketHandler :=
  fun _ => Wire.serializeIldcpResponse node1_ildcp.

(** A connected multi-tenant node whose configuration cache is still
    empty and whose owner has registered [node1_handler]. *)
Definition fresh_multi_tenant : World :=
  world
    (registerDataHandler node1_handler
       (connected
          (undiscovered (node1_opts true false (js "https://example.com/%/ilp"))))).

(** A node on the multiplexed transport, after one packet was sent. *)
Definition pooled : World :=
  world
    (sendData (loopback 200) (Wire.prepare_to (js "g.peer.bob") [])
       (connected (node1_opts false true (js "https://example.com/ilp")))).

(** A health probe: a GET without a token and without a body. *)
Definition probe : Context :=
  {| ctx_method := js "GET"; ctx_headers := []; ctx_req := [];
     ctx_body := None |}.

(** The multi-tenant node [g.node1], connected, over the one-shot
    transport, and the same node after [disconnect()], with a handler
    registered. *)
Definition node1 : World :=
  connected (node1_opts true false (js "https://example.com/%/ilp")).

Definition node1_closed : World :=
  world (registerDataHandler node1_handler (world (disconnect node1))).

(** An authenticated discovery request to a connected multi-tenant
    plugin: not a health probe, a body within the size limit that
    deserializes to a Prepare packet for [peer.config]. *)
Definition discovery_request (env : Collaborators) (ctx : Context)
    (w : World) (prepare : IlpPrepare) : Prop :=
  ctx_method ctx <> js "GET" /\
  verifyToken env (ctx_get ctx (js "authorization")) = true /\
  _connected (this w) = true /\
  _multi (this w) = true /\
  N.of_nat (length (ctx_req ctx)) <= MAX_ILP_PACKET_LENGTH /\
  deserializeIlpPrepare env (ctx_req ctx) = Fulfilled prepare /\
  destination prepare = js "peer.config".

(** ** Vocabulary of the further properties *)

(** The fields that only the constructor assigns. *)
Definition configuration (p : PluginHttp) :=
  (_multi p, _multiDelimiter p, _port p, _url p, _http2 p,
   _http2MaxRequestsPerSession p, _name p, _sendIlpDestination p).



(** The packets that the registered handler was invoked with, in order. *)
Definition handler_calls (t : list Event) : list Buffer :=
  omap (fun e => match e with EvHandler packet => Some packet | _ => None end)
    t.

(** The general dispatch of the middleware: what the request ends with,
    once it has passed the checks. *)
Definition dispatched (ctx : Context) (w : World)
  : Completion Context * World * list Event :=
  match _dataHandler (this w) with
  | None => (Throw (HttpError 502 (js "no handler registered.")), w, [])
  | Some handler =>
      (match handler (ctx_req ctx) with
       | Fulfilled answer => Normal (set_body (Binary answer) ctx)
       | Rejected reason => Throw (Foreign DataHandler reason)
       end, w, [EvHandler (ctx_req ctx)])
  end.

(** The interception of a discovery request by the middleware. *)
Definition intercepted (env : Collaborators) (ctx : Context) : M Context :=
  ildcp <- _fetchIldcp env ;;
  answer <-
    await ILDCP
      (serializeIldcpResponse env
         (with_clientAddress
            (clientAddress ildcp ++ js "." ++ ctx_get ctx (js "ilp-peer-name"))
            ildcp)) ;;
  ret (set_body (Binary answer) ctx).



(** A body of [n] zero bytes. *)
Definition blank (n : N) : Buffer := replicate (N.to_nat n) Byte.x00.

(** A sequence of calls, one after the other. *)
Definition run_calls (env : Collaborators) (cs : list Call) (w : World)
  : World :=
  foldl (fun w c => run_call env c w) w cs.

(** The table binds [origin] to the session [r], an allocated session
    object for that origin. *)
Definition bound_to (origin : jsstring) (r : ref) (w : World) : Prop :=
  Obj.get (_http2Clients (this w)) origin = Some r /\
  exists session, heap w !! r = Some session /\ h2_origin session = origin.

(** * Lemmas *)

Section StringFacts.

Implicit Types (s p r pre post : jsstring) (c sep : N).

Lemma strict_equal_spec (a b : jsstring) : strict_equal a b = true <-> a = b.
Proof.
  revert b; induction a as [|x a IH]; intros [|y b]; simpl; try easy.
  rewrite andb_true_iff, N.eqb_eq, IH. split.
  - intros [-> ->]; reflexivity.
  - intros [= -> ->]; auto.
Qed.

Lemma strict_equal_refl (a : jsstring) : strict_equal a a = true.
Proof. apply strict_equal_spec; reflexivity. Qed.

Lemma strict_equal_neq (a b : jsstring) : a <> b -> strict_equal a b = false.
Proof.
  intros H. destruct (strict_equal a b) eqn:E; [|reflexivity].
  apply strict_equal_spec in E. contradiction.
Qed.

Lemma first_split sep s : first (split sep s) = Some (leading sep s).
Proof.
  induction s as [|c s IH]; simpl; [reflexivity|].
  destruct (c =? sep); [reflexivity|].
  unfold first in IH. destruct (split sep s); simpl in *; congruence.
Qed.

Lemma leading_spec sep s :
  (sep ∉ leading sep s) /\
  (s = leading sep s \/ exists rest, s = leading sep s ++ sep :: rest).
Proof.
  induction s as [|c s [IHn IHs]]; simpl.
  - split; [apply not_elem_of_nil | left; reflexivity].
  - destruct (N.eqb_spec c sep) as [->|Hne].
    + split; [apply not_elem_of_nil | right; exists s; reflexivity].
    + split.
      * rewrite elem_of_cons. intros [?|?]; [congruence | contradiction].
      * destruct IHs as [IHs | [rest IHs]].
        -- left. congruence.
        -- right. exists rest. simpl. congruence.
Qed.

Lemma leading_app_sep sep key rest :
  sep ∉ key -> leading sep (key ++ sep :: rest) = key.
Proof.
  induction key as [|c key IH]; simpl; intros Hn.
  - rewrite N.eqb_refl. reflexivity.
  - rewrite not_elem_of_cons in Hn. destruct Hn as [Hc Hk].
    destruct (N.eqb_spec c sep); [congruence|]. rewrite IH; auto.
Qed.

Lemma leading_no_sep sep key : sep ∉ key -> leading sep key = key.
Proof.
  induction key as [|c key IH]; simpl; intros Hn; [reflexivity|].
  rewrite not_elem_of_cons in Hn. destruct Hn as [Hc Hk].
  destruct (N.eqb_spec c sep); [congruence|]. rewrite IH; auto.
Qed.

Lemma startsWith_spec p s : startsWith p s = true <-> exists t, s = p ++ t.
Proof.
  revert s; induction p as [|a p IH]; intros s; simpl.
  - split; eauto.
  - destruct s as [|b s].
    + split; [discriminate | intros [t Ht]; discriminate].
    + rewrite andb_true_iff, N.eqb_eq, IH. split.
      * intros [-> [t ->]]. eauto.
      * intros [t [= -> ->]]. eauto.
Qed.

Lemma indexOf_Some p s n :
  indexOf p s = Some n ->
  first_occurrence p s (take n s) (drop (n + length p) s).
Proof.
  revert n; induction s as [|c s IH]; intros n; simpl.
  - destruct (startsWith p []) eqn:E; [|discriminate].
    intros [= <-]. destruct p; [|discriminate]. split; [reflexivity|].
    intros; simpl; lia.
  - destruct (startsWith p (c :: s)) eqn:E.
    + intros [= <-]. apply startsWith_spec in E as [t Ht].
      split; [|intros; simpl; lia].
      simpl. rewrite Ht at 1. f_equal. rewrite Ht.
      rewrite drop_app_length. reflexivity.
    + destruct (indexOf p s) as [m|] eqn:Em; simpl; [|discriminate].
      intros [= <-]. destruct (IH m eq_refl) as [Heq Hmin].
      split.
      * simpl. f_equal. exact Heq.
      * intros [|c' pre'] post' H'.
        -- simpl in H'. assert (startsWith p (c :: s) = true)
             by (apply startsWith_spec; eauto). congruence.
        -- simpl in H'. injection H' as -> H'.
           specialize (Hmin _ _ H'). rewrite length_take in *. simpl. lia.
Qed.

Lemma indexOf_None p s :
  indexOf p s = None -> forall pre post, s <> pre ++ p ++ post.
Proof.
  induction s as [|c s IH]; simpl.
  - destruct (startsWith p []) eqn:E; [discriminate|]. intros _ pre post H.
    destruct pre; [|discriminate]. simpl in H.
    assert (startsWith p [] = true) by (apply startsWith_spec; eauto).
    congruence.
  - destruct (startsWith p (c :: s)) eqn:E; [discriminate|].
    destruct (indexOf p s) eqn:Em; simpl; [discriminate|].
    intros _ [|c' pre] post H.
    + assert (startsWith p (c :: s) = true)
        by (apply startsWith_spec; eauto). congruence.
    + simpl in H. injection H as -> H. eapply IH; eauto.
Qed.

Lemma indexOf_le p s n : indexOf p s = Some n -> (n <= length s)%nat.
Proof.
  revert n; induction s as [|c s IH]; intros n; simpl.
  - destruct (startsWith p []); [|discriminate]. intros [= <-]. lia.
  - destruct (startsWith p (c :: s)); [intros [= <-]; lia|].
    destruct (indexOf p s) as [m|]; simpl; [|discriminate].
    intros [= <-]. specialize (IH m eq_refl). lia.
Qed.

Lemma first_occurrence_indexOf p s pre post :
  first_occurrence p s pre post -> indexOf p s = Some (length pre).
Proof.
  intros [Heq Hmin]. destruct (indexOf p s) as [n|] eqn:E.
  - pose proof (indexOf_le _ _ _ E) as Hle.
    destruct (indexOf_Some _ _ _ E) as [Heq' Hmin'].
    specialize (Hmin _ _ Heq'). specialize (Hmin' _ _ Heq).
    rewrite length_take in *. f_equal. lia.
  - exfalso. eapply indexOf_None; eauto.
Qed.

Lemma GetSubstitution_plain matched before after template :
  dollar ∉ template ->
  GetSubstitution matched before after template = template.
Proof.
  induction template as [|c t IH]; simpl; intros Hn; [reflexivity|].
  rewrite not_elem_of_cons in Hn. destruct Hn as [Hc Ht].
  destruct (N.eqb_spec c dollar); [congruence|]. rewrite IH; auto.
Qed.

Lemma valid_segment_chars s :
  INVALID_SEGMENT_test s = false <-> Forall (fun c => segment_char c = true) s.
Proof.
  unfold INVALID_SEGMENT_test. induction s as [|c s IH]; simpl.
  - split; auto.
  - rewrite orb_false_iff, negb_false_iff, IH. split.
    + intros [? ?]; constructor; auto.
    + intros H; inversion H; auto.
Qed.

Lemma invalid_segment_chars s :
  INVALID_SEGMENT_test s = true <-> exists c, c ∈ s /\ segment_char c = false.
Proof.
  unfold INVALID_SEGMENT_test. rewrite existsb_exists. split.
  - intros (c & Hin & Hc). exists c. rewrite list_elem_of_In.
    split; [assumption|]. apply negb_true_iff; assumption.
  - intros (c & Hin & Hc). exists c. rewrite <- list_elem_of_In.
    split; [assumption|]. apply negb_true_iff; assumption.
Qed.

Lemma valid_segment_no_dollar s :
  INVALID_SEGMENT_test s = false -> dollar ∉ s.
Proof.
  rewrite valid_segment_chars, Forall_forall. intros H Hin.
  specialize (H _ Hin). vm_compute in H. discriminate.
Qed.

Lemma replace_first_occurrence p r s pre post :
  first_occurrence p s pre post ->
  dollar ∉ r ->
  replace p r s = pre ++ r ++ post.
Proof.
  intros Hocc Hr. unfold replace.
  rewrite (first_occurrence_indexOf _ _ _ _ Hocc).
  rewrite GetSubstitution_plain by assumption.
  destruct Hocc as [-> _].
  rewrite take_app_length.
  rewrite <- length_app, (app_assoc pre p post), drop_app_length.
  reflexivity.
Qed.

Lemma replace_absent p r s :
  (forall pre post, s <> pre ++ p ++ post) -> replace p r s = s.
Proof.
  intros H. unfold replace. destruct (indexOf p s) as [n|] eqn:E; [|reflexivity].
  destruct (indexOf_Some _ _ _ E) as [Heq _]. exfalso. eapply H; eauto.
Qed.

End StringFacts.

(** ** Facts about dictionaries *)

Section ObjFacts.

Context {V : Type}.
Implicit Types (o : Obj.t V) (k : jsstring) (v : V).

Lemma get_set_eq o k v : Obj.get (Obj.set o k v) k = Some v.
Proof.
  induction o as [|[k' v'] o IH]; simpl.
  - rewrite strict_equal_refl. reflexivity.
  - destruct (strict_equal k' k) eqn:E; simpl; rewrite E; auto.
Qed.

Lemma get_set_ne o k k' v :
  k <> k' -> Obj.get (Obj.set o k v) k' = Obj.get o k'.
Proof.
  intros Hne. induction o as [|[k0 v0] o IH]; simpl.
  - rewrite strict_equal_neq by assumption. reflexivity.
  - destruct (strict_equal k0 k) eqn:E; simpl.
    + apply strict_equal_spec in E. subst k0.
      rewrite strict_equal_neq by assumption. reflexivity.
    + destruct (strict_equal k0 k'); auto.
Qed.

Lemma set_fresh o k v : Obj.get o k = None -> Obj.set o k v = o ++ [(k, v)].
Proof.
  induction o as [|[k' v'] o IH]; simpl; [reflexivity|].
  destruct (strict_equal k' k); [discriminate|].
  intros H. rewrite IH by assumption. reflexivity.
Qed.

Lemma get_None o k : Obj.get o k = None <-> k ∉ Obj.keys o.
Proof.
  induction o as [|[k' v'] o IH]; simpl.
  - split; [intros _; apply not_elem_of_nil | reflexivity].
  - rewrite not_elem_of_cons. destruct (strict_equal k' k) eqn:E.
    + apply strict_equal_spec in E. split; [discriminate|].
      intros [? _]. congruence.
    + rewrite IH. split; [|tauto]. intros H. split; [|assumption].
      intros ->. rewrite strict_equal_refl in E. discriminate.
Qed.

Lemma get_Some_elem o k v : Obj.get o k = Some v -> (k, v) ∈ o.
Proof.
  induction o as [|[k' v'] o IH]; simpl; [discriminate|].
  destruct (strict_equal k' k) eqn:E.
  - apply strict_equal_spec in E. intros [= ->]. subst. apply elem_of_cons. auto.
  - intros H. apply elem_of_cons. auto.
Qed.

Lemma elem_get o k v : NoDup (Obj.keys o) -> (k, v) ∈ o -> Obj.get o k = Some v.
Proof.
  induction o as [|[k' v'] o IH]; simpl; intros Hnd Hin.
  - apply elem_of_nil in Hin. contradiction.
  - apply NoDup_cons in Hnd as [Hk Hnd]. apply elem_of_cons in Hin as [Heq|Hin].
    + injection Heq as -> ->. rewrite strict_equal_refl. reflexivity.
    + destruct (strict_equal k' k) eqn:E; [|auto].
      apply strict_equal_spec in E. subst k'. exfalso. apply Hk.
      unfold Obj.keys. apply (list_elem_of_fmap_2 fst) in Hin. exact Hin.
Qed.

Lemma keys_app o k v : Obj.keys (o ++ [(k, v)]) = Obj.keys o ++ [k].
Proof. unfold Obj.keys. rewrite map_app. reflexivity. Qed.

Lemma values_app o k v : Obj.values (o ++ [(k, v)]) = Obj.values o ++ [v].
Proof. unfold Obj.values. rewrite map_app. reflexivity. Qed.

Lemma elem_values o k v : (k, v) ∈ o -> v ∈ Obj.values o.
Proof. intros H. apply (list_elem_of_fmap_2 snd) in H. exact H. Qed.

Lemma values_elem o v : v ∈ Obj.values o -> exists k, (k, v) ∈ o.
Proof.
  unfold Obj.values. intros H. apply list_elem_of_fmap in H as [[k v'] [-> H]].
  exists k. exact H.
Qed.

End ObjFacts.

(** ** Running the monad *)

Ltac unfold_monad :=
  unfold bind, ret, throw, emit, await, get_this, get_heap, update_this,
    result, world, trace in *.

Lemma run_bind {A B} (m : M A) (k : A -> M B) w :
  bind m k w =
    match result (m w) with
    | Normal a => after (trace (m w)) (k a (world (m w)))
    | Throw e => (Throw e, world (m w), trace (m w))
    end.
Proof.
  unfold bind, after, result, world, trace.
  destruct (m w) as [[[a|e] w'] t]; simpl; [|reflexivity].
  destruct (k a w') as [[r w''] t']. reflexivity.
Qed.

Section Preserves.

Variable P : World -> Prop.

Lemma preserves_ret {A} (a : A) : preserves P (ret a).
Proof. intros w H. exact H. Qed.

Lemma preserves_throw {A} e : preserves P (@throw A e).
Proof. intros w H. exact H. Qed.

Lemma preserves_emit e : preserves P (emit e).
Proof. intros w H. exact H. Qed.

Lemma preserves_await {A} from (o : Outcome A) : preserves P (await from o).
Proof. intros w H. exact H. Qed.

Lemma preserves_get_this : preserves P get_this.
Proof. intros w H. exact H. Qed.

Lemma preserves_get_heap : preserves P get_heap.
Proof. intros w H. exact H. Qed.

Lemma preserves_bind {A B} (m : M A) (k : A -> M B) :
  preserves P m -> (forall a, preserves P (k a)) -> preserves P (bind m k).
Proof.
  intros Hm Hk w H. rewrite run_bind. specialize (Hm w H).
  destruct (result (m w)); [|exact Hm]. apply (Hk a), Hm.
Qed.

Lemma preserves_for_of {A} (xs : list A) (body : A -> M unit) :
  (forall x, preserves P (body x)) -> preserves P (for_of xs body).
Proof.
  intros Hb. induction xs as [|x xs IH]; simpl.
  - apply preserves_ret.
  - apply preserves_bind; auto.
Qed.

End Preserves.

(** ** The session table *)

Lemma keeps_clients_set_connected b : keeps_clients (set_connected b).
Proof. intros p. reflexivity. Qed.
Lemma keeps_clients_set_ildcp i : keeps_clients (set_ildcp i).
Proof. intros p. reflexivity. Qed.
Lemma keeps_clients_set_dataHandler h : keeps_clients (set_dataHandler h).
Proof. intros p. reflexivity. Qed.
Lemma keeps_clients_set_httpServer s : keeps_clients (set_httpServer s).
Proof. intros p. reflexivity. Qed.

Lemma getClient_hit origin w r :
  Obj.get (_http2Clients (this w)) origin = Some r ->
  _getHttp2ClientForOrigin origin w = (Normal (Some r), w, []).
Proof.
  intros H. unfold _getHttp2ClientForOrigin. unfold_monad. simpl.
  rewrite H. simpl. rewrite H. reflexivity.
Qed.

Lemma getClient_miss origin w :
  Obj.get (_http2Clients (this w)) origin = None ->
  _getHttp2ClientForOrigin origin w =
    (Normal (Some (length (heap w))), with_session origin w,
     [EvNewHttp2Client (length (heap w)) origin
        (_http2MaxRequestsPerSession (this w))]).
Proof.
  intros H. unfold _getHttp2ClientForOrigin, Http2Client_new, with_session.
  unfold_monad. simpl. rewrite H. simpl.
  rewrite get_set_eq, (set_fresh _ _ _ H). reflexivity.
Qed.

Lemma table_ok_with_session origin w :
  Obj.get (_http2Clients (this w)) origin = None ->
  table_ok w -> table_ok (with_session origin w).
Proof.
  intros Hnone (Hk & Hv & Hh). unfold table_ok, with_session. simpl.
  rewrite keys_app, values_app. repeat split.
  - apply NoDup_app. repeat split; [assumption | | apply NoDup_singleton].
    intros k Hin Hin'. apply list_elem_of_singleton in Hin'. subst k.
    apply get_None in Hnone. contradiction.
  - apply NoDup_app. repeat split; [assumption | | apply NoDup_singleton].
    intros r Hin Hin'. apply list_elem_of_singleton in Hin'. subst r.
    apply values_elem in Hin as [k Hin].
    destruct (Hh _ _ Hin) as (session & Hs & _).
    apply lookup_lt_Some in Hs. lia.
  - intros o r Hin. apply elem_of_app in Hin as [Hin|Hin].
    + destruct (Hh _ _ Hin) as (session & Hs & Ho). exists session.
      split; [|assumption]. rewrite lookup_app_l; [assumption|].
      eapply lookup_lt_Some; eauto.
    + apply list_elem_of_singleton in Hin. injection Hin as -> ->.
      eexists. split.
      * rewrite lookup_app_r by lia. rewrite Nat.sub_diag. reflexivity.
      * reflexivity.
Qed.

Lemma table_ok_step w w' : step w w' -> table_ok w -> table_ok w'.
Proof.
  intros [f w0 Hf|origin w0|r w0] H.
  - unfold table_ok in *. simpl. rewrite Hf. exact H.
  - destruct (Obj.get (_http2Clients (this w0)) origin) as [r|] eqn:E.
    + rewrite (getClient_hit _ _ _ E). exact H.
    + rewrite (getClient_miss _ _ E). apply table_ok_with_session; assumption.
  - destruct H as (Hk & Hv & Hh).
    unfold table_ok, Http2Client_close, world. simpl.
    repeat split; try assumption.
    intros o r' Hin. destruct (Hh o r' Hin) as (session & Hs & Ho).
    destruct (decide (r = r')) as [->|Hne].
    + exists (closed session). rewrite list_lookup_alter_eq, Hs.
      split; [reflexivity | exact Ho].
    + exists session. rewrite list_lookup_alter_ne by assumption.
      split; assumption.
Qed.

Lemma table_ok_start opts : table_ok (start opts).
Proof.
  unfold table_ok, start. simpl. repeat split; try apply NoDup_nil_2.
  intros o r H. apply elem_of_nil in H. contradiction.
Qed.

(** *** The methods change the world step by step *)

Create HintDb steps discriminated.
#[global] Hint Resolve preserves_ret preserves_throw preserves_emit
  preserves_await preserves_get_this preserves_get_heap
  keeps_clients_set_connected keeps_clients_set_ildcp
  keeps_clients_set_dataHandler keeps_clients_set_httpServer : steps.

Ltac preserve :=
  repeat first
    [ progress intros
    | solve [auto with steps]
    | apply preserves_bind
    | apply preserves_for_of
    | match goal with
      | |- preserves _ (match ?x with _ => _ end) => destruct x
      | |- preserves _ (if ?x then _ else _) => destruct x
      | |- preserves _ (let _ := _ in _) => cbv zeta
      end ].

Section StepClosed.

(** A property of the world that every step keeps. *)
Variable P : World -> Prop.
Hypothesis P_step : forall w w', step w w' -> P w -> P w'.

Variable env : Collaborators.

Lemma update_preserves f : keeps_clients f -> preserves P (update_this f).
Proof. intros Hf w H. exact (P_step _ _ (step_update f w Hf) H). Qed.

Lemma close_preserves r : preserves P (Http2Client_close r).
Proof. intros w H. exact (P_step _ _ (step_close r w) H). Qed.

Lemma getClient_preserves origin :
  preserves P (_getHttp2ClientForOrigin origin).
Proof. intros w H. exact (P_step _ _ (step_session origin w) H). Qed.

#[local] Hint Resolve update_preserves close_preserves getClient_preserves
  : steps.

Lemma fetchIldcp_preserves : preserves P (_fetchIldcp env).
Proof. unfold _fetchIldcp, ILDCP_fetch, call_handler. preserve. Qed.

Lemma generateUrl_preserves dest : preserves P (_generateUrl env dest).
Proof.
  unfold _generateUrl. apply preserves_bind; [apply fetchIldcp_preserves|].
  preserve.
Qed.

Lemma fetch_preserves url opts : preserves P (_fetch env url opts).
Proof. unfold _fetch, Http2Client_fetch, fetch. preserve. Qed.

Lemma sendData_preserves packet : preserves P (sendData env packet).
Proof.
  unfold sendData, _getToken, IlpPacket_deserializeIlpPrepare.
  pose proof generateUrl_preserves. pose proof fetch_preserves.
  preserve.
Qed.

Lemma middleware_preserves ctx : preserves P (middleware env ctx).
Proof.
  unfold middleware, _verifyToken, raw, IlpPacket_deserializeIlpPrepare,
    call_handler.
  pose proof fetchIldcp_preserves.
  preserve.
Qed.

Lemma connect_preserves : preserves P connect.
Proof. unfold connect. preserve. Qed.

Lemma disconnect_preserves : preserves P disconnect.
Proof. unfold disconnect, httpServer_close. preserve. Qed.

Lemma run_call_preserves c w : P w -> P (run_call env c w).
Proof.
  destruct c; simpl.
  - apply connect_preserves.
  - apply disconnect_preserves.
  - apply sendData_preserves.
  - apply middleware_preserves.
  - apply update_preserves, keeps_clients_set_dataHandler.
  - apply update_preserves, keeps_clients_set_dataHandler.
  - auto.
  - auto.
  - auto.
Qed.

End StepClosed.

Lemma table_ok_fetch env url opts : preserves table_ok (_fetch env url opts).
Proof. apply fetch_preserves, table_ok_step. Qed.

(** The worlds reached by whole calls are among the worlds at any time. *)
Lemma reachable_at_some_time env opts w :
  reachable env opts w -> at_some_time opts w.
Proof.
  induction 1 as [|w c _ IH].
  - apply rtc_refl.
  - apply (run_call_preserves (at_some_time opts)); [|exact IH].
    intros w1 w2 Hs H1. eapply rtc_r; eauto.
Qed.

Lemma at_some_time_table_ok opts w : at_some_time opts w -> table_ok w.
Proof.
  unfold at_some_time. revert w. apply rtc_ind_r.
  - apply table_ok_start.
  - intros w1 w2 _ Hs IH. eapply table_ok_step; eauto.
Qed.

(** ** Equations of the monad *)

Section After.

Context {A : Type}.
Implicit Types (r : Completion A * World * list Event) (t : list Event).

Lemma after_nil r : after [] r = r.
Proof. destruct r as [[c w] t]. reflexivity. Qed.

Lemma after_after t t' r : after t (after t' r) = after (t ++ t') r.
Proof. unfold after. simpl. rewrite app_assoc. reflexivity. Qed.

Lemma result_after t r : result (after t r) = result r.
Proof. reflexivity. Qed.

Lemma world_after t r : world (after t r) = world r.
Proof. reflexivity. Qed.

Lemma trace_after t r : trace (after t r) = t ++ trace r.
Proof. reflexivity. Qed.

End After.

Section MonadLaws.

Context {A B : Type}.
Implicit Types (k : A -> M B) (w : World) (t : list Event).

Lemma bind_run (m : M A) k w a w' t :
  m w = (Normal a, w', t) -> bind m k w = after t (k a w').
Proof.
  intros H. unfold bind, after, result, world, trace. rewrite H.
  destruct (k a w') as [[r w''] t']. reflexivity.
Qed.

Lemma bind_run_throw (m : M A) k w e w' t :
  m w = (Throw e, w', t) -> bind m k w = (Throw e, w', t).
Proof. intros H. unfold bind. rewrite H. reflexivity. Qed.

Lemma bind_ret (a : A) k w : bind (ret a) k w = k a w.
Proof. rewrite (bind_run _ _ _ a w []) by reflexivity. apply after_nil. Qed.

Lemma bind_throw e k w : bind (throw e) k w = (Throw e, w, []).
Proof. reflexivity. Qed.

Lemma bind_await from (o : Outcome A) k w a :
  o = Fulfilled a -> bind (await from o) k w = k a w.
Proof.
  intros ->. rewrite (bind_run _ _ _ a w []) by reflexivity.
  apply after_nil.
Qed.

Lemma bind_await_rejected from (o : Outcome A) k w reason :
  o = Rejected reason ->
  bind (await from o) k w = (Throw (Foreign from reason), w, []).
Proof. intros ->. reflexivity. Qed.

End MonadLaws.

Section MonadLawsState.

Context {B : Type}.

Lemma bind_get_this (k : PluginHttp -> M B) w :
  bind get_this k w = k (this w) w.
Proof.
  rewrite (bind_run _ _ _ (this w) w []) by reflexivity. apply after_nil.
Qed.

Lemma bind_get_heap (k : list Http2Client -> M B) w :
  bind get_heap k w = k (heap w) w.
Proof.
  rewrite (bind_run _ _ _ (heap w) w []) by reflexivity. apply after_nil.
Qed.

Lemma bind_emit e (k : unit -> M B) w :
  bind (emit e) k w = after [e] (k tt w).
Proof. apply bind_run. reflexivity. Qed.

Lemma bind_update_this f (k : unit -> M B) w :
  bind (update_this f) k w = k tt {| this := f (this w); heap := heap w |}.
Proof.
  rewrite (bind_run _ _ _ tt {| this := f (this w); heap := heap w |} [])
    by reflexivity.
  apply after_nil.
Qed.

End MonadLawsState.

(** ** What a computation puts in the trace *)

Section Emits.

Variable P : Event -> Prop.

Lemma emits_ret {A} (a : A) : emits P (ret a).
Proof. intros w. constructor. Qed.

Lemma emits_throw {A} e : emits P (@throw A e).
Proof. intros w. constructor. Qed.

Lemma emits_await {A} from (o : Outcome A) : emits P (await from o).
Proof. intros w. constructor. Qed.

Lemma emits_get_this : emits P get_this.
Proof. intros w. constructor. Qed.

Lemma emits_get_heap : emits P get_heap.
Proof. intros w. constructor. Qed.

Lemma emits_update_this f : emits P (update_this f).
Proof. intros w. constructor. Qed.

Lemma emits_emit e : P e -> emits P (emit e).
Proof. intros H w. repeat constructor. exact H. Qed.

Lemma emits_bind {A B} (m : M A) (k : A -> M B) :
  emits P m -> (forall a, emits P (k a)) -> emits P (bind m k).
Proof.
  intros Hm Hk w. rewrite run_bind. specialize (Hm w).
  destruct (result (m w)); [|exact Hm].
  rewrite trace_after. apply Forall_app. split; [exact Hm | apply Hk].
Qed.

Lemma emits_for_of {A} (xs : list A) (body : A -> M unit) :
  (forall x, emits P (body x)) -> emits P (for_of xs body).
Proof.
  intros Hb. induction xs as [|x xs IH]; simpl.
  - apply emits_ret.
  - apply emits_bind; auto.
Qed.

End Emits.

Create HintDb emits discriminated.
#[global] Hint Resolve emits_ret emits_throw emits_await emits_get_this
  emits_get_heap emits_update_this : emits.

Ltac emitting :=
  repeat first
    [ progress intros
    | solve [auto with emits]
    | apply emits_emit; solve [reflexivity | auto]
    | apply emits_bind
    | match goal with
      | |- emits _ (match ?x with _ => _ end) => destruct x
      | |- emits _ (if ?x then _ else _) => destruct x
      end ].

(** ** [_fetch] *)

Section Fetch.

Variable env : Collaborators.

Lemma fetch_http1 url opts w :
  _http2 (this w) = false ->
  _fetch env url opts w =
    (settle Transport (node_fetch env url opts), w, [EvFetch url opts]).
Proof.
  intros H. unfold _fetch, fetch. unfold_monad. simpl. rewrite H.
  reflexivity.
Qed.

Lemma fetch_http2_invalid url opts w reason :
  _http2 (this w) = true ->
  parseURL env url = Rejected reason ->
  _fetch env url opts w = (Throw (Foreign UrlParser reason), w, []).
Proof.
  intros H Hu. unfold _fetch. unfold_monad. simpl. rewrite H, Hu.
  reflexivity.
Qed.

Lemma fetch_http2_hit url opts w u r session :
  _http2 (this w) = true ->
  parseURL env url = Fulfilled u ->
  Obj.get (_http2Clients (this w)) (origin u) = Some r ->
  heap w !! r = Some session ->
  _fetch env url opts w =
    (settle Transport (http2_fetch env r session (pathname u) opts), w,
     [EvHttp2Fetch r (pathname u) opts]).
Proof.
  intros H Hu Hr Hs.
  unfold _fetch, _getHttp2ClientForOrigin, Http2Client_fetch.
  unfold_monad. simpl. rewrite H, Hu. simpl. rewrite Hr. simpl.
  rewrite Hr, Hs. reflexivity.
Qed.

Lemma fetch_http2_miss url opts w u :
  _http2 (this w) = true ->
  parseURL env url = Fulfilled u ->
  Obj.get (_http2Clients (this w)) (origin u) = None ->
  _fetch env url opts w =
    (settle Transport
       (http2_fetch env (length (heap w))
          {| h2_origin := origin u;
             h2_maxRequestsPerSession := _http2MaxRequestsPerSession (this w);
             h2_open := true |}
          (pathname u) opts),
     with_session (origin u) w,
     [EvNewHttp2Client (length (heap w)) (origin u)
        (_http2MaxRequestsPerSession (this w));
      EvHttp2Fetch (length (heap w)) (pathname u) opts]).
Proof.
  intros H Hu Hr.
  unfold _fetch, _getHttp2ClientForOrigin, Http2Client_fetch,
    Http2Client_new, with_session.
  unfold_monad. simpl. rewrite H, Hu. simpl. rewrite Hr. simpl.
  rewrite get_set_eq, (set_fresh _ _ _ Hr). cbn [heap this].
  rewrite lookup_app_r by lia. rewrite Nat.sub_diag. simpl.
  reflexivity.
Qed.

(** In a well-formed world, a fetch over the multiplexed transport ends
    with one request, over the session that the table then holds for
    the origin. *)
Lemma fetch_http2_session url opts w u :
  table_ok w ->
  _http2 (this w) = true ->
  parseURL env url = Fulfilled u ->
  exists r,
    Obj.get (_http2Clients (this (world (_fetch env url opts w)))) (origin u)
      = Some r /\
    match Obj.get (_http2Clients (this w)) (origin u) with
    | Some r0 =>
        r = r0 /\
        world (_fetch env url opts w) = w /\
        trace (_fetch env url opts w) = [EvHttp2Fetch r (pathname u) opts]
    | None =>
        r = length (heap w) /\
        world (_fetch env url opts w) = with_session (origin u) w /\
        trace (_fetch env url opts w) =
          [EvNewHttp2Client r (origin u)
             (_http2MaxRequestsPerSession (this w));
           EvHttp2Fetch r (pathname u) opts]
    end.
Proof.
  intros Hok H Hu.
  destruct (Obj.get (_http2Clients (this w)) (origin u)) as [r|] eqn:E.
  - destruct Hok as (_ & _ & Hh).
    destruct (Hh _ _ (get_Some_elem _ _ _ E)) as (session & Hs & _).
    rewrite (fetch_http2_hit _ _ _ _ _ _ H Hu E Hs). simpl.
    exists r. auto.
  - rewrite (fetch_http2_miss _ _ _ _ H Hu E). simpl.
    exists (length (heap w)). split; [|auto].
    rewrite <- (set_fresh _ _ _ E). apply get_set_eq.
Qed.

End Fetch.

Lemma table_injective w o1 o2 r :
  table_ok w ->
  (o1, r) ∈ _http2Clients (this w) -> (o2, r) ∈ _http2Clients (this w) ->
  o1 = o2.
Proof.
  intros (_ & _ & Hh) H1 H2.
  destruct (Hh _ _ H1) as (s1 & Hs1 & <-).
  destruct (Hh _ _ H2) as (s2 & Hs2 & <-). congruence.
Qed.

Lemma table_functional w o r1 r2 :
  table_ok w ->
  (o, r1) ∈ _http2Clients (this w) -> (o, r2) ∈ _http2Clients (this w) ->
  r1 = r2.
Proof.
  intros (Hk & _ & _) H1 H2.
  apply (elem_get _ _ _ Hk) in H1. apply (elem_get _ _ _ Hk) in H2.
  congruence.
Qed.

(** ** The configuration cache and URL resolution *)

Section Resolution.

Variable env : Collaborators.

Lemma fetchIldcp_cached w cached :
  _ildcp (this w) = Some cached ->
  _fetchIldcp env w = (Normal cached, w, []).
Proof.
  intros H. unfold _fetchIldcp. rewrite bind_get_this, H. reflexivity.
Qed.

Lemma fetchIldcp_no_handler w :
  _ildcp (this w) = None -> _dataHandler (this w) = None ->
  _fetchIldcp env w =
    (Throw (Error (js "data handler must be registered to fetch ildcp")),
     w, []).
Proof.
  intros H Hh. unfold _fetchIldcp. rewrite bind_get_this, H, Hh.
  reflexivity.
Qed.

(** With an empty cache, the discovery request goes to the handler. *)
Lemma fetchIldcp_discover w handler :
  _ildcp (this w) = None -> _dataHandler (this w) = Some handler ->
  _fetchIldcp env w =
    match handler (serializeIldcpRequest env) with
    | Rejected reason =>
        (Throw (Foreign DataHandler reason), w,
         [EvHandler (serializeIldcpRequest env)])
    | Fulfilled answer =>
        match deserializeIldcpResponse env answer with
        | Rejected reason =>
            (Throw (Foreign ILDCP reason), w,
             [EvHandler (serializeIldcpRequest env)])
        | Fulfilled fetched =>
            (Normal fetched,
             {| this := set_ildcp (Some fetched) (this w); heap := heap w |},
             [EvHandler (serializeIldcpRequest env)])
        end
    end.
Proof.
  intros H Hh. unfold _fetchIldcp. rewrite bind_get_this, H, Hh.
  unfold ILDCP_fetch, call_handler.
  destruct (handler (serializeIldcpRequest env)) as [answer|reason] eqn:Ea;
    [destruct (deserializeIldcpResponse env answer) as [fetched|reason]
       eqn:Ef|];
    unfold_monad; simpl; try rewrite Ea; simpl; try rewrite Ef; reflexivity.
Qed.

Lemma fetchIldcp_quiet :
  emits (fun e => is_network e = false) (_fetchIldcp env).
Proof. unfold _fetchIldcp, ILDCP_fetch, call_handler. emitting. Qed.

(** [_fetchIldcp] changes nothing but the cache. *)
Lemma fetchIldcp_frame w :
  exists cache,
    world (_fetchIldcp env w) =
      {| this := set_ildcp cache (this w); heap := heap w |}.
Proof.
  destruct (_ildcp (this w)) as [cached|] eqn:E.
  - rewrite (fetchIldcp_cached _ _ E). exists (Some cached).
    destruct w as [p h]. destruct p. simpl in *. subst. reflexivity.
  - destruct (_dataHandler (this w)) as [handler|] eqn:Eh.
    + rewrite (fetchIldcp_discover _ _ E Eh).
      destruct (handler _); [destruct (deserializeIldcpResponse _ _)|];
        simpl; eauto;
        exists None; destruct w as [p h]; destruct p; simpl in *; subst;
        reflexivity.
    + rewrite (fetchIldcp_no_handler _ E Eh). exists None.
      destruct w as [p h]. destruct p. simpl in *. subst. reflexivity.
Qed.

(** The routing key that [_generateUrl] extracts. *)
Lemma routing_key_leading (addr dest : jsstring) :
  ToString (first (split dot (substring (length addr + 1) dest)))
  = leading dot (drop (length addr + 1) dest).
Proof. unfold substring. rewrite first_split. reflexivity. Qed.

Lemma generateUrl_run dest w ildcp w1 t1 :
  _fetchIldcp env w = (Normal ildcp, w1, t1) ->
  _generateUrl env dest w =
    (if INVALID_SEGMENT_test
          (leading dot (drop (length (clientAddress ildcp) + 1) dest))
     then Throw (Error (js "invalid address segment"))
     else Normal
            (replace (_multiDelimiter (this w))
               (leading dot (drop (length (clientAddress ildcp) + 1) dest))
               (_url (this w))),
     w1, t1).
Proof.
  intros H. unfold _generateUrl. rewrite (bind_run _ _ _ _ _ _ H).
  rewrite routing_key_leading.
  destruct (INVALID_SEGMENT_test _).
  - unfold after, throw. simpl. rewrite app_nil_r. reflexivity.
  - rewrite bind_get_this. unfold after, ret. simpl. rewrite app_nil_r.
    destruct (fetchIldcp_frame w) as [cache Hw]. rewrite H in Hw.
    unfold world in Hw. simpl in Hw. subst w1. reflexivity.
Qed.

Lemma generateUrl_throw dest w e w1 t1 :
  _fetchIldcp env w = (Throw e, w1, t1) ->
  _generateUrl env dest w = (Throw e, w1, t1).
Proof. intros H. unfold _generateUrl. apply bind_run_throw, H. Qed.

Lemma generateUrl_quiet dest :
  emits (fun e => is_network e = false) (_generateUrl env dest).
Proof.
  unfold _generateUrl. apply emits_bind; [apply fetchIldcp_quiet|].
  emitting.
Qed.

End Resolution.

(** ** [sendData] *)

Section Send.

Variable env : Collaborators.

Lemma fetch_http2_dangling url opts w u r :
  _http2 (this w) = true ->
  parseURL env url = Fulfilled u ->
  Obj.get (_http2Clients (this w)) (origin u) = Some r ->
  heap w !! r = None ->
  _fetch env url opts w = (Throw (Foreign Runtime (js "TypeError")), w, []).
Proof.
  intros H Hu Hr Hs.
  unfold _fetch, _getHttp2ClientForOrigin, Http2Client_fetch.
  unfold_monad. simpl. rewrite H, Hu. simpl. rewrite Hr. simpl.
  rewrite Hr, Hs. reflexivity.
Qed.

(** The check that follows the request. *)
Lemma check_response (m : M FetchResponse) w answer w' t :
  m w = (settle Transport answer, w', t) ->
  bind m
    (fun res =>
       if negb (ok res)
       then throw (Error (js "failed to fetch. code="
                            ++ String_of_number (status res)))
       else await Transport (buffer res)) w
  = (send_result answer, w', t).
Proof.
  intros H. destruct answer as [res|reason]; simpl in H.
  - rewrite (bind_run _ _ _ _ _ _ H). unfold send_result.
    destruct (ok res); unfold after, throw, await; simpl;
      rewrite app_nil_r; reflexivity.
  - apply bind_run_throw, H.
Qed.

Lemma no_network_answer t e w :
  no_network t -> e ∈ t -> network_answer env w e = None.
Proof.
  intros Hq Hin. unfold no_network in Hq. rewrite Forall_forall in Hq.
  specialize (Hq _ Hin). destruct e; simpl in *; congruence.
Qed.

Lemma answered_quiet c w t :
  no_network t -> answered_as_sent env (c, w, t).
Proof.
  intros Hq e answer Hin Hans. simpl in Hin.
  rewrite (no_network_answer _ _ _ Hq Hin) in Hans. discriminate.
Qed.

Lemma answered_after t r :
  no_network t -> answered_as_sent env r -> answered_as_sent env (after t r).
Proof.
  intros Hq Hr e answer Hin Hans. rewrite trace_after in Hin.
  rewrite world_after in Hans. rewrite result_after.
  apply elem_of_app in Hin as [Hin|Hin].
  - rewrite (no_network_answer _ _ _ Hq Hin) in Hans. discriminate.
  - eapply Hr; eauto.
Qed.

Lemma answered_bind {A} (m : M A) (k : A -> M Buffer) w :
  no_network (trace (m w)) ->
  (forall a, answered_as_sent env (k a (world (m w)))) ->
  answered_as_sent env (bind m k w).
Proof.
  intros Hq Hk. rewrite run_bind. destruct (result (m w)).
  - apply answered_after; auto.
  - apply answered_quiet, Hq.
Qed.

Lemma post_to_answered url packet headers w :
  answered_as_sent env (post_to env url packet headers w).
Proof.
  unfold post_to.
  set (opts := {| fp_method := js "POST"; fp_body := packet;
                  fp_headers := headers |}).
  destruct (_http2 (this w)) eqn:H2.
  - destruct (parseURL env url) as [u|reason] eqn:Hu.
    + destruct (Obj.get (_http2Clients (this w)) (origin u)) as [r|] eqn:Hr.
      * destruct (heap w !! r) as [session|] eqn:Hs.
        -- rewrite (check_response _ _ _ _ _
                      (fetch_http2_hit env url opts w u r session H2 Hu Hr Hs)).
           intros e answer Hin Hans. unfold trace, world in Hin, Hans.
           simpl in Hin, Hans.
           apply list_elem_of_singleton in Hin. subst e. simpl in Hans.
           rewrite Hs in Hans. injection Hans as <-. reflexivity.
        -- rewrite (bind_run_throw _ _ _ _ _ _
                      (fetch_http2_dangling url opts w u r H2 Hu Hr Hs)).
           apply answered_quiet. constructor.
      * rewrite (check_response _ _ _ _ _
                   (fetch_http2_miss env url opts w u H2 Hu Hr)).
        intros e answer Hin Hans. unfold trace, world in Hin, Hans.
        simpl in Hin, Hans.
        apply elem_of_cons in Hin as [->|Hin]; [discriminate|].
        apply list_elem_of_singleton in Hin. subst e. simpl in Hans.
        rewrite lookup_app_r in Hans by lia.
        rewrite Nat.sub_diag in Hans. simpl in Hans.
        injection Hans as <-. reflexivity.
    + rewrite (bind_run_throw _ _ _ _ _ _
                 (fetch_http2_invalid env url opts w reason H2 Hu)).
      apply answered_quiet. constructor.
  - rewrite (check_response _ _ _ _ _ (fetch_http1 env url opts w H2)).
    intros e answer Hin Hans. unfold trace, world in Hin, Hans.
           simpl in Hin, Hans.
    apply list_elem_of_singleton in Hin. subst e. simpl in Hans.
    injection Hans as <-. reflexivity.
Qed.

Ltac quiet :=
  match goal with
  | |- no_network (trace (?m ?w)) =>
      let H := fresh in
      assert (H : emits (fun e => is_network e = false) m);
      [ | exact (H w) ]
  end.

Lemma sendData_answered packet w :
  answered_as_sent env (sendData env packet w).
Proof.
  unfold sendData.
  apply answered_bind; [quiet; emitting | intros self].
  destruct (negb (_connected self)); [apply answered_quiet; constructor|].
  apply answered_bind; [quiet; unfold _getToken; emitting | intros token].
  apply answered_bind; [quiet; emitting | intros self'].
  apply answered_bind.
  - quiet. unfold IlpPacket_deserializeIlpPrepare.
    pose proof (generateUrl_quiet env). emitting.
  - intros target. apply post_to_answered.
Qed.

End Send.

Lemma bind_assoc {A B C} (m : M A) (f : A -> M B) (g : B -> M C) w :
  bind (bind m f) g w = bind m (fun x => bind (f x) g) w.
Proof.
  unfold bind. destruct (m w) as [[[a|e] w'] t]; [|reflexivity].
  destruct (f a w') as [[[b|e] w''] t']; [|reflexivity].
  destruct (g b w'') as [[r w3] t'']. rewrite app_assoc. reflexivity.
Qed.

Section SendMulti.

Variable env : Collaborators.

(** [sendData] in multi-tenant mode, once the token, the packet and the
    local address are there. *)
Lemma sendData_multi packet w token prepare ildcp w1 t1 :
  _connected (this w) = true ->
  _multi (this w) = true ->
  getToken env = Fulfilled token ->
  deserializeIlpPrepare env packet = Fulfilled prepare ->
  _fetchIldcp env w = (Normal ildcp, w1, t1) ->
  let key :=
    leading dot
      (drop (length (clientAddress ildcp) + 1) (destination prepare)) in
  sendData env packet w =
    after ([EvGetToken; EvIlpDeserialize packet] ++ t1)
      (if INVALID_SEGMENT_test key
       then (Throw (Error (js "invalid address segment")), w1, [])
       else
         post_to env (replace (_multiDelimiter (this w)) key (_url (this w)))
           packet
           (outgoing_headers token (_name (this w))
              (if _sendIlpDestination (this w)
               then Some (destination prepare) else None))
           w1).
Proof.
  intros Hc Hm Ht Hp Hi key.
  pose proof (generateUrl_run env (destination prepare) w ildcp w1 t1 Hi)
    as Hgen. fold key in Hgen.
  unfold sendData. rewrite bind_get_this, Hc. simpl.
  unfold _getToken. rewrite bind_assoc, bind_emit, (bind_await _ _ _ _ _ Ht).
  rewrite bind_get_this, Hm. simpl.
  unfold IlpPacket_deserializeIlpPrepare.
  rewrite !bind_assoc, bind_emit, (bind_await _ _ _ _ _ Hp).
  rewrite bind_assoc. rewrite !after_after. simpl.
  destruct (INVALID_SEGMENT_test key).
  - rewrite (bind_run_throw _ _ _ _ _ _ Hgen).
    unfold after. simpl. rewrite app_nil_r. reflexivity.
  - rewrite (bind_run _ _ _ _ _ _ Hgen). rewrite bind_ret, after_after.
    destruct (_sendIlpDestination (this w)); reflexivity.
Qed.

End SendMulti.

Lemma drop_address (addr rest : jsstring) (sep : N) :
  drop (length addr + 1) (addr ++ sep :: rest) = rest.
Proof.
  rewrite (cons_middle sep addr rest), app_assoc.
  apply drop_app_length'. rewrite length_app. reflexivity.
Qed.

Lemma leading_short (addr dest : jsstring) :
  (length dest <= length addr + 1)%nat ->
  leading dot (drop (length addr + 1) dest) = [].
Proof. intros H. rewrite drop_ge by lia. reflexivity. Qed.

(** ** The middleware *)

Section Inbound.

Variable env : Collaborators.

(** The general dispatch at the end of the middleware. *)
Lemma dispatch_run ctx packet w :
  (self <- get_this ;;
   match _dataHandler self with
   | None => throw (HttpError 502 (js "no handler registered."))
   | Some handler =>
       answer <- call_handler handler packet ;;
       ret (set_body (Binary answer) ctx)
   end) w
  = match _dataHandler (this w) with
    | None => (Throw (HttpError 502 (js "no handler registered.")), w, [])
    | Some handler =>
        (match handler packet with
         | Fulfilled answer => Normal (set_body (Binary answer) ctx)
         | Rejected reason => Throw (Foreign DataHandler reason)
         end, w, [EvHandler packet])
    end.
Proof.
  rewrite bind_get_this. destruct (_dataHandler (this w)) as [handler|];
    [|reflexivity].
  unfold call_handler. rewrite bind_assoc, bind_emit.
  destruct (handler packet) as [answer|reason].
  - rewrite (bind_await _ _ _ _ answer eq_refl). reflexivity.
  - rewrite (bind_await_rejected _ _ _ _ reason eq_refl). reflexivity.
Qed.

(** An authenticated request that is not a health probe, on a connected
    multi-tenant plugin: the body is read and deserialized first. *)
Lemma middleware_multi ctx w :
  ctx_method ctx <> js "GET" ->
  verifyToken env (ctx_get ctx (js "authorization")) = true ->
  _connected (this w) = true ->
  _multi (this w) = true ->
  N.of_nat (length (ctx_req ctx)) <= MAX_ILP_PACKET_LENGTH ->
  middleware env ctx w =
    after [EvVerifyToken (ctx_get ctx (js "authorization")); EvReadBody;
           EvIlpDeserialize (ctx_req ctx)]
      match deserializeIlpPrepare env (ctx_req ctx) with
      | Rejected reason => (Throw (Foreign IlpPacket reason), w, [])
      | Fulfilled parsed =>
          if strict_equal (destination parsed) (js "peer.config") then
            (ildcp <- _fetchIldcp env ;;
             answer <-
               await ILDCP
                 (serializeIldcpResponse env
                    (with_clientAddress
                       (clientAddress ildcp ++ js "."
                          ++ ctx_get ctx (js "ilp-peer-name")) ildcp)) ;;
             ret (set_body (Binary answer) ctx)) w
          else
            match _dataHandler (this w) with
            | None =>
                (Throw (HttpError 502 (js "no handler registered.")), w, [])
            | Some handler =>
                (match handler (ctx_req ctx) with
                 | Fulfilled answer => Normal (set_body (Binary answer) ctx)
                 | Rejected reason => Throw (Foreign DataHandler reason)
                 end, w, [EvHandler (ctx_req ctx)])
            end
      end.
Proof.
  intros Hm Hv Hc Hmulti Hlen.
  unfold middleware. rewrite (strict_equal_neq _ _ Hm).
  unfold _verifyToken. rewrite bind_assoc, bind_emit, bind_ret, Hv. simpl.
  rewrite bind_get_this, Hc. simpl.
  unfold raw. rewrite bind_assoc, bind_emit.
  apply N.ltb_ge in Hlen. rewrite Hlen, bind_ret, Hmulti.
  unfold IlpPacket_deserializeIlpPrepare. rewrite bind_assoc, bind_emit.
  rewrite !after_after. simpl. f_equal.
  destruct (deserializeIlpPrepare env (ctx_req ctx)) as [parsed|reason].
  - rewrite (bind_await _ _ _ _ parsed eq_refl).
    destruct (strict_equal (destination parsed) (js "peer.config"));
      [reflexivity|].
    apply dispatch_run.
  - rewrite (bind_await_rejected _ _ _ _ reason eq_refl). reflexivity.
Qed.

End Inbound.

(** ** [disconnect] *)

Lemma close_all rs w :
  for_of rs Http2Client_close w
  = (Normal tt, {| this := this w; heap := close_refs rs (heap w) |},
     map EvCloseHttp2Client rs).
Proof.
  revert w; induction rs as [|r rs IH]; intros w; simpl.
  - destruct w. reflexivity.
  - rewrite (bind_run _ _ _ tt
               {| this := this w; heap := alter closed r (heap w) |}
               [EvCloseHttp2Client r]) by reflexivity.
    rewrite IH. reflexivity.
Qed.

Lemma close_refs_length rs : forall objects : list Http2Client,
  length (close_refs rs objects) = length objects.
Proof.
  induction rs as [|x rs IH]; intros objects; simpl; [reflexivity|].
  unfold close_refs in *. simpl. rewrite IH. apply length_alter.
Qed.

Lemma closed_stays_closed rs :
  forall (objects : list Http2Client) (r : ref) session,
    objects !! r = Some session -> h2_open session = false ->
    exists session',
      close_refs rs objects !! r = Some session' /\ h2_open session' = false.
Proof.
  induction rs as [|x rs IH]; intros objects r session Hs Ho.
  - eauto.
  - unfold close_refs in *. simpl. destruct (decide (x = r)) as [->|Hne].
    + apply (IH _ r (closed session)); [|reflexivity].
      rewrite list_lookup_alter_eq, Hs. reflexivity.
    + apply (IH _ r session); [|assumption].
      rewrite list_lookup_alter_ne by assumption. assumption.
Qed.

Lemma close_refs_closed rs :
  forall (objects : list Http2Client) (r : ref) session,
    r ∈ rs -> close_refs rs objects !! r = Some session ->
    h2_open session = false.
Proof.
  induction rs as [|x rs IH]; intros objects r session Hin Hs.
  - apply elem_of_nil in Hin. contradiction.
  - destruct (decide (x = r)) as [->|Hne].
    + destruct (objects !! r) as [s0|] eqn:E.
      * destruct (closed_stays_closed rs (alter closed r objects) r (closed s0))
          as (s' & Hs' & Ho'); [|reflexivity|].
        { rewrite list_lookup_alter_eq, E. reflexivity. }
        change (close_refs (r :: rs) objects)
          with (close_refs rs (alter closed r objects)) in Hs. congruence.
      * exfalso. apply lookup_ge_None in E. apply lookup_lt_Some in Hs.
        rewrite close_refs_length in Hs. lia.
    + apply elem_of_cons in Hin as [->|Hin]; [congruence|].
      change (close_refs (x :: rs) objects)
        with (close_refs rs (alter closed x objects)) in Hs.
      eapply IH; eauto.
Qed.

Lemma disconnect_run w :
  _connected (this w) = true ->
  disconnect w =
    let rs := Obj.values (_http2Clients (this w)) in
    let w' := {| this := set_connected false (this w);
                 heap := close_refs rs (heap w) |} in
    match _httpServer (this w) with
    | None =>
        (Throw (Foreign Runtime (js "TypeError")), w',
         map EvCloseHttp2Client rs)
    | Some server =>
        (Normal tt,
         {| this :=
              set_httpServer
                (Some {| srv_port := srv_port server; srv_listening := false |})
                (set_connected false (this w));
            heap := close_refs rs (heap w) |},
         map EvCloseHttp2Client rs ++ [EvCloseServer; EvEmit (js "disconnect")])
    end.
Proof.
  intros Hc. unfold disconnect. rewrite bind_get_this, Hc. simpl.
  rewrite (bind_run _ _ _ _ _ _ (close_all _ w)).
  rewrite bind_update_this. unfold httpServer_close.
  rewrite bind_assoc, bind_get_this. simpl.
  destruct (_httpServer (this w)) as [server|].
  - rewrite !bind_assoc, bind_emit, bind_update_this.
    unfold after, emit. simpl. reflexivity.
  - unfold after. simpl. rewrite app_nil_r. reflexivity.
Qed.

Lemma no_handler_call_forallb t :
  no_handler_call t -> forallb (fun e => negb (is_handler_call e)) t = true.
Proof.
  induction 1 as [|e t He _ IH]; simpl; [reflexivity|].
  rewrite He, IH. reflexivity.
Qed.

(** * The claims *)

(** C1.  In multi-tenant mode [sendData] resolves the outgoing URL from
    the destination of the Prepare packet: it drops the local address and
    the separator after it, takes what comes before the next dot (all of
    the rest when there is no dot) as the routing key, fails with the invalid-address error, and without any
    request on the network, when the key has a code unit other than a
    letter, a digit, an underscore or a hyphen, and otherwise goes on to
    post to the base URL in which the key stands in place of the first
    occurrence of the delimiter (to the base URL itself when the
    delimiter does not occur in it).  With local address [g.node1] the key of
    [g.node1.alice.123] is [alice], the destination [g.node1.bad/seg.x] is
    rejected before the network, and [https://example.com/%/ilp] with
    delimiter [%] and key [alice] is [https://example.com/alice/ilp]. *)
Theorem multi_tenant_url_resolution :
  (forall env packet w token prepare ildcp w1 t1,
      _connected (this w) = true ->
      _multi (this w) = true ->
      getToken env = Fulfilled token ->
      deserializeIlpPrepare env packet = Fulfilled prepare ->
      _fetchIldcp env w = (Normal ildcp, w1, t1) ->
      let key :=
        leading dot
          (drop (length (clientAddress ildcp) + 1) (destination prepare)) in
      let run := sendData env packet w in
      (forall sep rest,
          destination prepare = clientAddress ildcp ++ sep :: rest ->
          (dot ∉ key) /\
          (rest = key \/ exists tail, rest = key ++ dot :: tail)) /\
      ((exists c, c ∈ key /\ segment_char c = false) ->
       result run = Throw (Error (js "invalid address segment")) /\
       no_network (trace run)) /\
      (Forall (fun c => segment_char c = true) key ->
       run =
         after ([EvGetToken; EvIlpDeserialize packet] ++ t1)
           (post_to env
              (replace (_multiDelimiter (this w)) key (_url (this w)))
              packet
              (outgoing_headers token (_name (this w))
                 (if _sendIlpDestination (this w)
                  then Some (destination prepare) else None))
              w1) /\
       (forall pre post,
           first_occurrence (_multiDelimiter (this w)) (_url (this w)) pre post ->
           replace (_multiDelimiter (this w)) key (_url (this w))
           = pre ++ key ++ post) /\
       ((forall pre post,
            _url (this w) <> pre ++ _multiDelimiter (this w) ++ post) ->
        replace (_multiDelimiter (this w)) key (_url (this w))
        = _url (this w)))) /\
  leading dot (drop (length (js "g.node1") + 1) (js "g.node1.alice.123"))
  = js "alice" /\
  (let w := connected (node1_opts true false (js "https://example.com/%/ilp")) in
   let packet := Wire.prepare_to (js "g.node1.bad/seg.x") [] in
   sendData (loopback 200) packet w
   = (Throw (Error (js "invalid address segment")), w,
      [EvGetToken; EvIlpDeserialize packet])) /\
  replace (js "%") (js "alice") (js "https://example.com/%/ilp")
  = js "https://example.com/alice/ilp".
Proof.
  split; [|split; [|split]]; try (vm_compute; reflexivity).
  intros env packet w token prepare ildcp w1 t1 Hc Hm Ht Hp Hi key run.
  pose proof (sendData_multi env packet w token prepare ildcp w1 t1
                Hc Hm Ht Hp Hi) as Hrun.
  cbv zeta in Hrun. subst key run.
  split; [|split].
  - intros sep rest Hd. rewrite Hd, drop_address. apply leading_spec.
  - intros Hbad. apply invalid_segment_chars in Hbad. rewrite Hbad in Hrun.
    rewrite Hrun. split; [reflexivity|].
    unfold after, trace. simpl. rewrite app_nil_r.
    repeat (constructor; [reflexivity|]).
    pose proof (fetchIldcp_quiet env w) as Hq. rewrite Hi in Hq. exact Hq.
  - intros Hgood. pose proof Hgood as Hvalid.
    apply valid_segment_chars in Hvalid. rewrite Hvalid in Hrun.
    split; [exact Hrun|]. split.
    + intros pre post Hocc. apply replace_first_occurrence; [exact Hocc|].
      apply valid_segment_no_dollar, Hvalid.
    + apply replace_absent.
Qed.

(** C1 at the node [g.node1], for the destination [g.node1.alice.123]:
    the packet is posted to [https://example.com/alice/ilp]. *)
Lemma multi_tenant_url_resolution_witness :
  let env := loopback 200 in
  let packet := Wire.prepare_to (js "g.node1.alice.123") [] in
  _connected (this node1) = true /\
  _multi (this node1) = true /\
  getToken env = Fulfilled (js "Bearer out") /\
  destination <$> match deserializeIlpPrepare env packet with
                  | Fulfilled p => Some p
                  | Rejected _ => None
                  end = Some (js "g.node1.alice.123") /\
  _fetchIldcp env node1 = (Normal node1_ildcp, node1, []) /\
  sendData env packet node1
  = after [EvGetToken; EvIlpDeserialize packet]
      (post_to env (js "https://example.com/alice/ilp") packet
         (outgoing_headers (js "Bearer out") (js "8080") None) node1).
Proof.
  intros env packet.
  split; [reflexivity|]. split; [reflexivity|]. split; [reflexivity|].
  split; [reflexivity|]. split; [reflexivity|].
  destruct (proj1 multi_tenant_url_resolution env packet node1
              (js "Bearer out")
              {| amount := 0; executionCondition := Wire.zeros 32;
                 expiresAt := js "20301231235959999";
                 destination := js "g.node1.alice.123"; data := [] |}
              node1_ildcp node1 []
              eq_refl eq_refl eq_refl eq_refl eq_refl)
    as (_ & _ & Hgood).
  destruct Hgood as [Hrun _].
  - vm_compute. repeat constructor.
  - exact Hrun.
Defined.

(** C2 as stated does not hold: on a connected multi-tenant plugin whose
    configuration cache is empty, an authenticated discovery request makes
    the plugin invoke the registered packet handler, and without a
    registered handler it is not answered 200. *)
Lemma discovery_as_stated_fails :
  ~ (forall env ctx w prepare,
        discovery_request env ctx w prepare ->
        no_handler_call (trace (middleware env ctx w)))
  /\
  ~ (forall env ctx w prepare,
        discovery_request env ctx w prepare ->
        res_status (respond (result (middleware env ctx w))) = 200).
Proof.
  assert (Hreq : forall w,
             _connected (this w) = true -> _multi (this w) = true ->
             discovery_request (loopback 200)
               (post (js "Bearer in") (js "alice") Wire.serializeIldcpRequest)
               w
               {| amount := 0; executionCondition := Wire.zeros 32;
                  expiresAt := js "20301231235959999";
                  destination := js "peer.config"; data := [] |}).
  { intros w Hc Hm. unfold discovery_request.
    split; [vm_compute; discriminate|]. split; [reflexivity|].
    split; [exact Hc|]. split; [exact Hm|].
    split; [vm_compute; discriminate|]. split; reflexivity. }
  split; intros H.
  - specialize (H _ _ _ _ (Hreq fresh_multi_tenant eq_refl eq_refl)).
    apply no_handler_call_forallb in H. vm_compute in H. discriminate.
  - specialize (H _ _ _ _
                  (Hreq (connected
                           (undiscovered
                              (node1_opts true false
                                 (js "https://example.com/%/ilp"))))
                     eq_refl eq_refl)).
    vm_compute in H. discriminate.
Qed.

(** C2, amended.  On a connected multi-tenant plugin, for an
    authenticated request that is not a health probe and whose body
    deserializes to a Prepare packet: when the destination is exactly
    [peer.config] and the configuration cache is populated, the answer is
    200 with the serialized cached response whose client address is the
    cached address, a dot and the value of the peer-name header, and the
    handler is not invoked; when the cache is empty the discovery request
    (never the inbound packet) goes through the registered handler, its
    response is cached and the answer is built from it in the same way,
    and without a handler the request fails; for any other destination
    the interception does not fire and the request goes to the general
    dispatch: 502 without a handler, otherwise the handler is invoked
    with the raw body. *)
Theorem discovery_interception env ctx w prepare :
  ctx_method ctx <> js "GET" ->
  verifyToken env (ctx_get ctx (js "authorization")) = true ->
  _connected (this w) = true ->
  _multi (this w) = true ->
  N.of_nat (length (ctx_req ctx)) <= MAX_ILP_PACKET_LENGTH ->
  deserializeIlpPrepare env (ctx_req ctx) = Fulfilled prepare ->
  let name := ctx_get ctx (js "ilp-peer-name") in
  let run := middleware env ctx w in
  let before :=
    [EvVerifyToken (ctx_get ctx (js "authorization")); EvReadBody;
     EvIlpDeserialize (ctx_req ctx)] in
  (destination prepare = js "peer.config" ->
   (forall cached answer,
       _ildcp (this w) = Some cached ->
       serializeIldcpResponse env
         (with_clientAddress (clientAddress cached ++ js "." ++ name) cached)
       = Fulfilled answer ->
       run = (Normal (set_body (Binary answer) ctx), w, before) /\
       respond (result run)
       = {| res_status := 200; res_body := Binary answer |} /\
       no_handler_call (trace run)) /\
   (forall handler reply fetched answer,
       _ildcp (this w) = None ->
       _dataHandler (this w) = Some handler ->
       handler (serializeIldcpRequest env) = Fulfilled reply ->
       deserializeIldcpResponse env reply = Fulfilled fetched ->
       serializeIldcpResponse env
         (with_clientAddress (clientAddress fetched ++ js "." ++ name) fetched)
       = Fulfilled answer ->
       run = (Normal (set_body (Binary answer) ctx),
              {| this := set_ildcp (Some fetched) (this w); heap := heap w |},
              before ++ [EvHandler (serializeIldcpRequest env)]) /\
       respond (result run)
       = {| res_status := 200; res_body := Binary answer |}) /\
   (_ildcp (this w) = None -> _dataHandler (this w) = None ->
    run = (Throw (Error (js "data handler must be registered to fetch ildcp")),
           w, before) /\
    res_status (respond (result run)) = 500)) /\
  (destination prepare <> js "peer.config" ->
   (forall handler,
       _dataHandler (this w) = Some handler ->
       run = (match handler (ctx_req ctx) with
              | Fulfilled answer => Normal (set_body (Binary answer) ctx)
              | Rejected reason => Throw (Foreign DataHandler reason)
              end, w, before ++ [EvHandler (ctx_req ctx)])) /\
   (_dataHandler (this w) = None ->
    run = (Throw (HttpError 502 (js "no handler registered.")), w, before))).
Proof.
  intros Hm Hv Hc Hmulti Hlen Hp name run before.
  pose proof (middleware_multi env ctx w Hm Hv Hc Hmulti Hlen) as Hrun.
  rewrite Hp in Hrun. fold run in Hrun. fold before in Hrun.
  split.
  - intros Hd. rewrite Hd in Hrun. rewrite strict_equal_refl in Hrun.
    split; [|split].
    + intros cached answer Hcache Hser.
      rewrite (bind_run _ _ _ _ _ _ (fetchIldcp_cached env w cached Hcache))
        in Hrun.
      rewrite (bind_await _ _ _ _ _ Hser) in Hrun.
      rewrite Hrun. unfold after, ret. simpl. rewrite ?app_nil_r.
      split; [reflexivity|]. split; [reflexivity|].
      repeat constructor.
    + intros handler reply fetched answer Hcache Hh Hreply Hfetched Hser.
      pose proof (fetchIldcp_discover env w handler Hcache Hh) as Hf.
      rewrite Hreply, Hfetched in Hf.
      rewrite (bind_run _ _ _ _ _ _ Hf) in Hrun.
      rewrite (bind_await _ _ _ _ _ Hser) in Hrun.
      rewrite Hrun. unfold after, ret. simpl. rewrite ?app_nil_r.
      split; reflexivity.
    + intros Hcache Hh.
      rewrite (bind_run_throw _ _ _ _ _ _
                 (fetchIldcp_no_handler env w Hcache Hh)) in Hrun.
      rewrite Hrun. unfold after. simpl. rewrite ?app_nil_r.
      split; reflexivity.
  - intros Hd. rewrite (strict_equal_neq _ _ Hd) in Hrun. split.
    + intros handler Hh. rewrite Hh in Hrun. rewrite Hrun. reflexivity.
    + intros Hh. rewrite Hh in Hrun. rewrite Hrun.
      unfold after. simpl. rewrite ?app_nil_r. reflexivity.
Qed.

(** C2 at the node [g.node1], whose cache was filled at construction, for
    the peer [alice]: the answer carries the address [g.node1.alice]. *)
Lemma discovery_interception_witness :
  let env := loopback 200 in
  let ctx := post (js "Bearer in") (js "alice") Wire.serializeIldcpRequest in
  ctx_method ctx <> js "GET" /\
  verifyToken env (ctx_get ctx (js "authorization")) = true /\
  _connected (this node1) = true /\
  _multi (this node1) = true /\
  N.of_nat (length (ctx_req ctx)) <= MAX_ILP_PACKET_LENGTH /\
  _ildcp (this node1) = Some node1_ildcp /\
  respond (result (middleware env ctx node1))
  = {| res_status := 200;
       res_body :=
         Binary
           (Wire.serializeIlpFulfill
              (Wire.writeVarOctetString
                 (Wire.ascii_bytes (js "g.node1.alice"))
                 ++ [Wire.byte_of 9]
                 ++ Wire.writeVarOctetString (Wire.ascii_bytes (js "XRP")))) |}.
Proof.
  intros env ctx.
  assert (Hm : ctx_method ctx <> js "GET") by (vm_compute; discriminate).
  assert (Hlen : N.of_nat (length (ctx_req ctx)) <= MAX_ILP_PACKET_LENGTH)
    by (vm_compute; discriminate).
  split; [exact Hm|]. split; [reflexivity|]. split; [reflexivity|].
  split; [reflexivity|]. split; [exact Hlen|]. split; [reflexivity|].
  destruct (discovery_interception env ctx node1
              {| amount := 0; executionCondition := Wire.zeros 32;
                 expiresAt := js "20301231235959999";
                 destination := js "peer.config"; data := [] |}
              Hm eq_refl eq_refl eq_refl Hlen eq_refl) as [Hconfig _].
  destruct (Hconfig eq_refl) as [Hcached _].
  exact (proj1 (proj2 (Hcached node1_ildcp _ eq_refl eq_refl))).
Defined.

(** C3.  While the plugin is disconnected, an authenticated request that
    is not a health probe is answered 502, whatever handler is registered
    and without the body being read or the handler invoked, and
    [sendData] fails at once, before a token is acquired and before
    anything is sent. *)
Theorem disconnected_rejects env w :
  _connected (this w) = false ->
  (forall ctx,
      ctx_method ctx <> js "GET" ->
      verifyToken env (ctx_get ctx (js "authorization")) = true ->
      middleware env ctx w
      = (Throw (HttpError 502 (js "server is closed")), w,
         [EvVerifyToken (ctx_get ctx (js "authorization"))]) /\
      res_status (respond (result (middleware env ctx w))) = 502) /\
  (forall packet,
      sendData env packet w
      = (Throw (Error (js "plugin is not connected.")), w, [])).
Proof.
  intros Hc. split.
  - intros ctx Hm Hv.
    assert (middleware env ctx w
            = (Throw (HttpError 502 (js "server is closed")), w,
               [EvVerifyToken (ctx_get ctx (js "authorization"))])) as ->.
    { unfold middleware. rewrite (strict_equal_neq _ _ Hm).
      unfold _verifyToken. rewrite bind_assoc, bind_emit, bind_ret, Hv.
      simpl. rewrite bind_get_this, Hc. reflexivity. }
    split; reflexivity.
  - intros packet. unfold sendData. rewrite bind_get_this, Hc. reflexivity.
Qed.

(** C3 at the node [g.node1] after [disconnect()], with a handler
    registered and a valid token. *)
Lemma disconnected_rejects_witness :
  let env := loopback 200 in
  let ctx :=
    post (js "Bearer in") (js "alice")
      (Wire.prepare_to (js "g.node1.alice.123") []) in
  _connected (this node1_closed) = false /\
  (exists handler, _dataHandler (this node1_closed) = Some handler) /\
  ctx_method ctx <> js "GET" /\
  verifyToken env (ctx_get ctx (js "authorization")) = true /\
  res_status (respond (result (middleware env ctx node1_closed))) = 502 /\
  result (sendData env (ctx_req ctx) node1_closed)
  = Throw (Error (js "plugin is not connected.")).
Proof.
  intros env ctx.
  assert (Hm : ctx_method ctx <> js "GET") by (vm_compute; discriminate).
  split; [reflexivity|]. split; [eexists; reflexivity|].
  split; [exact Hm|]. split; [reflexivity|].
  destruct (disconnected_rejects env node1_closed eq_refl) as [Hin Hout].
  split.
  - exact (proj2 (Hin ctx Hm eq_refl)).
  - rewrite (Hout (ctx_req ctx)). reflexivity.
Defined.

(** C4.  A GET request is answered 200 with the body [OK], whatever the
    authorization header, the connection state and the handler slot; the
    trace is empty, so the token has not even been looked at. *)
Theorem health_probe_always_ok env ctx w :
  ctx_method ctx = js "GET" ->
  middleware env ctx w = (Normal (set_body (Text (js "OK")) ctx), w, []) /\
  respond (result (middleware env ctx w))
  = {| res_status := 200; res_body := Text (js "OK") |}.
Proof.
  intros Hm.
  assert (middleware env ctx w
          = (Normal (set_body (Text (js "OK")) ctx), w, [])) as ->.
  { unfold middleware. rewrite Hm. reflexivity. }
  split; reflexivity.
Qed.

(** C4 at the disconnected node, for a probe without a token. *)
Lemma health_probe_always_ok_witness :
  ctx_method probe = js "GET" /\
  _connected (this node1_closed) = false /\
  respond (result (middleware (loopback 200) probe node1_closed))
  = {| res_status := 200; res_body := Text (js "OK") |}.
Proof.
  split; [reflexivity|]. split; [reflexivity|].
  exact (proj2 (health_probe_always_ok (loopback 200) probe node1_closed
                  eq_refl)).
Defined.

(** C5.  When [sendData] has put its request on the network and the peer
    has answered with a response, the call fails with the error that
    carries the status of the response exactly when the response is not
    [ok]; when it is [ok] the call ends as reading the body of the
    response as a buffer ends. *)
Theorem upstream_status_decides env packet w e res :
  e ∈ trace (sendData env packet w) ->
  network_answer env (world (sendData env packet w)) e = Some (Fulfilled res) ->
  (result (sendData env packet w)
   = Throw (Error (js "failed to fetch. code="
                     ++ String_of_number (status res)))
   <-> ok res = false) /\
  (ok res = true ->
   result (sendData env packet w) = settle Transport (buffer res)).
Proof.
  intros Hin Hans.
  rewrite (sendData_answered env packet w e (Fulfilled res) Hin Hans).
  unfold send_result. destruct (ok res).
  - split; [|reflexivity]. split; [|discriminate].
    destruct (buffer res); discriminate.
  - split; [|discriminate]. split; reflexivity.
Qed.

(** C5 for a peer that answers 404. *)
Lemma upstream_status_decides_witness :
  let env := loopback 404 in
  let packet := Wire.prepare_to (js "g.peer.bob") [] in
  let w := connected (node1_opts false false (js "https://example.com/ilp")) in
  let opts :=
    {| fp_method := js "POST"; fp_body := packet;
       fp_headers := outgoing_headers (js "Bearer out") (js "8080") None |} in
  let e := EvFetch (js "https://example.com/ilp") opts in
  let res := {| ok := false; status := 404; buffer := Fulfilled packet |} in
  e ∈ trace (sendData env packet w) /\
  network_answer env (world (sendData env packet w)) e = Some (Fulfilled res) /\
  result (sendData env packet w)
  = Throw (Error (js "failed to fetch. code=404")).
Proof.
  intros env packet w opts e res.
  assert (Hin : e ∈ trace (sendData env packet w)).
  { vm_compute. apply list_elem_of_further, list_elem_of_here. }
  split; [exact Hin|]. split; [reflexivity|].
  destruct (upstream_status_decides env packet w e res Hin eq_refl) as [H _].
  exact (proj2 H eq_refl).
Defined.

(** C6.  At any time, that is in every world that a sequence of steps of
    the methods leads to from a new plugin (among them the worlds that
    whole calls reach): the session table, empty at construction, never
    holds two sessions for one origin; over the multiplexed transport a
    fetch creates a session exactly when the table has none for the
    origin of the URL, and stores it; and of two fetches in a row the
    requests go over the same session exactly when the two URLs have the
    same origin. *)
Theorem one_session_per_origin env opts w :
  at_some_time opts w ->
  (forall w', reachable env opts w' -> at_some_time opts w') /\
  _http2Clients (this (start opts)) = [] /\
  (forall o r1 r2,
     (o, r1) ∈ _http2Clients (this w) -> (o, r2) ∈ _http2Clients (this w) ->
     r1 = r2) /\
  (forall url fopts u,
     _http2 (this w) = true -> parseURL env url = Fulfilled u ->
     let run := _fetch env url fopts w in
     match Obj.get (_http2Clients (this w)) (origin u) with
     | Some r => world run = w /\ trace run = [EvHttp2Fetch r (pathname u) fopts]
     | None =>
         world run = with_session (origin u) w /\
         trace run =
           [EvNewHttp2Client (length (heap w)) (origin u)
              (_http2MaxRequestsPerSession (this w));
            EvHttp2Fetch (length (heap w)) (pathname u) fopts]
     end) /\
  (forall url1 url2 fopts1 fopts2 u1 u2,
     _http2 (this w) = true ->
     parseURL env url1 = Fulfilled u1 -> parseURL env url2 = Fulfilled u2 ->
     let run1 := _fetch env url1 fopts1 w in
     let run2 := _fetch env url2 fopts2 (world run1) in
     exists r1 r2,
       filter (fun e => is_network e) (trace run1)
         = [EvHttp2Fetch r1 (pathname u1) fopts1] /\
       filter (fun e => is_network e) (trace run2)
         = [EvHttp2Fetch r2 (pathname u2) fopts2] /\
       (r1 = r2 <-> origin u1 = origin u2)).
Proof.
  intros Htime. pose proof (at_some_time_table_ok _ _ Htime) as Hok.
  split; [apply reachable_at_some_time|].
  split; [reflexivity|]. split; [|split].
  - intros o r1 r2. apply table_functional, Hok.
  - intros url fopts u H2 Hu run.
    destruct (fetch_http2_session env url fopts w u Hok H2 Hu) as (r & _ & Hr).
    fold run in Hr.
    destruct (Obj.get (_http2Clients (this w)) (origin u)).
    + destruct Hr as (-> & ? & ?). auto.
    + destruct Hr as (-> & ? & ?). auto.
  - intros url1 url2 fopts1 fopts2 u1 u2 H2 Hu1 Hu2 run1 run2.
    destruct (fetch_http2_session env url1 fopts1 w u1 Hok H2 Hu1)
      as (r1 & Hget1 & Hrun1). fold run1 in Hget1, Hrun1.
    assert (Hok1 : table_ok (world run1)) by (apply table_ok_fetch, Hok).
    assert (H21 : _http2 (this (world run1)) = true).
    { destruct (Obj.get (_http2Clients (this w)) (origin u1));
        destruct Hrun1 as (_ & -> & _); [assumption | exact H2]. }
    assert (Ht1 : filter (fun e => is_network e) (trace run1)
                  = [EvHttp2Fetch r1 (pathname u1) fopts1]).
    { destruct (Obj.get (_http2Clients (this w)) (origin u1));
        destruct Hrun1 as (_ & _ & ->); reflexivity. }
    destruct (fetch_http2_session env url2 fopts2 (world run1) u2 Hok1 H21 Hu2)
      as (r2 & Hget2 & Hrun2). fold run2 in Hget2, Hrun2.
    exists r1, r2. split; [exact Ht1|]. split.
    + destruct (Obj.get (_http2Clients (this (world run1))) (origin u2));
        destruct Hrun2 as (_ & _ & ->); reflexivity.
    + split.
      * intros <-.
        destruct (Obj.get (_http2Clients (this (world run1))) (origin u2))
          as [r0|] eqn:E2.
        -- destruct Hrun2 as (-> & _ & _).
           eapply table_injective; eauto using get_Some_elem.
        -- destruct Hrun2 as (-> & _ & _). exfalso.
           destruct Hok1 as (_ & _ & Hh).
           destruct (Hh _ _ (get_Some_elem _ _ _ Hget1)) as (s & Hs & _).
           apply lookup_lt_Some in Hs. lia.
      * intros Ho. rewrite <- Ho in Hrun2. rewrite Hget1 in Hrun2.
        destruct Hrun2 as (-> & _). reflexivity.
Qed.

(** C6 in the world reached by [connect()] and one [sendData]. *)
Lemma one_session_per_origin_witness :
  let env := loopback 200 in
  let opts := node1_opts false true (js "https://example.com/ilp") in
  at_some_time opts pooled /\
  _http2Clients (this pooled) = [(js "https://example.com", 0%nat)] /\
  forall o r1 r2,
    (o, r1) ∈ _http2Clients (this pooled) ->
    (o, r2) ∈ _http2Clients (this pooled) -> r1 = r2.
Proof.
  intros env opts.
  assert (Hr : at_some_time opts pooled).
  { apply (reachable_at_some_time env).
    exact (reachable_call env opts _
             (CallSendData (Wire.prepare_to (js "g.peer.bob") []))
             (reachable_call env opts _ CallConnect
                (reachable_start env opts))). }
  split; [exact Hr|]. split; [reflexivity|].
  exact (proj1 (proj2 (proj2 (one_session_per_origin env opts pooled Hr)))).
Defined.

(** C7.  The code at the failing input: for the URL
    [https://example.com/ilp?tenant=a] the request over the pooled session
    is issued for [/ilp], without the query [?tenant=a], while the
    one-shot transport is handed the whole URL. *)
Theorem http2_request_omits_query :
  let env := loopback 200 in
  let url := js "https://example.com/ilp?tenant=a" in
  let packet := Wire.prepare_to (js "g.peer.bob") [] in
  let opts :=
    {| fp_method := js "POST"; fp_body := packet;
       fp_headers :=
         outgoing_headers (js "Bearer out") (js "8080") None |} in
  parseURL env url
  = Fulfilled {| origin := js "https://example.com";
                 pathname := js "/ilp";
                 search := js "?tenant=a" |} /\
  trace (sendData env packet (connected (node1_opts false true url)))
  = [EvGetToken;
     EvNewHttp2Client 0 (js "https://example.com") None;
     EvHttp2Fetch 0 (js "/ilp") opts] /\
  trace (sendData env packet (connected (node1_opts false false url)))
  = [EvGetToken; EvFetch url opts].
Proof. vm_compute. repeat split. Qed.

(** C8 as stated does not hold: [disconnect] leaves the session table as
    it was, so a session pooled before the call is still in the table
    after it. *)
Lemma disconnect_keeps_closed_sessions :
  ~ (forall w,
        _connected (this w) = true ->
        forall o r,
          (o, r) ∈ _http2Clients (this w) ->
          (o, r) ∉ _http2Clients (this (world (disconnect w)))).
Proof.
  intros H.
  apply (H pooled eq_refl (js "https://example.com") 0%nat);
    vm_compute; apply list_elem_of_here.
Qed.

(** C8, amended.  [disconnect] on a connected plugin calls [close()] on
    every session of the table, so that none of them is open afterwards,
    marks the plugin disconnected, and succeeds when a listener exists;
    the session table itself is left unchanged. *)
Theorem disconnect_closes_sessions w :
  _connected (this w) = true ->
  let run := disconnect w in
  (forall o r,
      (o, r) ∈ _http2Clients (this w) ->
      EvCloseHttp2Client r ∈ trace run /\
      forall session,
        heap (world run) !! r = Some session -> h2_open session = false) /\
  _http2Clients (this (world run)) = _http2Clients (this w) /\
  _connected (this (world run)) = false /\
  (_httpServer (this w) <> None -> result run = Normal tt).
Proof.
  intros Hc run. pose proof (disconnect_run w Hc) as Hrun.
  fold run in Hrun. cbv zeta in Hrun.
  assert (Hheap : heap (world run)
                  = close_refs (Obj.values (_http2Clients (this w))) (heap w)).
  { rewrite Hrun. destruct (_httpServer (this w)); reflexivity. }
  assert (Htrace : forall r, r ∈ Obj.values (_http2Clients (this w)) ->
                             EvCloseHttp2Client r ∈ trace run).
  { intros r Hin. apply (list_elem_of_fmap_2 EvCloseHttp2Client) in Hin.
    rewrite Hrun. destruct (_httpServer (this w)); unfold trace; simpl.
    - apply elem_of_app. left. exact Hin.
    - exact Hin. }
  split; [|split; [|split]].
  - intros o r Hin. apply elem_values in Hin. split; [auto|].
    intros session Hs. rewrite Hheap in Hs.
    eapply close_refs_closed; eauto.
  - rewrite Hrun. destruct (_httpServer (this w)); reflexivity.
  - rewrite Hrun. destruct (_httpServer (this w)); reflexivity.
  - intros Hs. rewrite Hrun. destruct (_httpServer (this w)); [reflexivity|].
    contradiction.
Qed.

(** C8 on a plugin with one pooled session: open before [disconnect()],
    closed and still in the table after it. *)
Lemma disconnect_closes_sessions_witness :
  _connected (this pooled) = true /\
  (js "https://example.com", 0%nat) ∈ _http2Clients (this pooled) /\
  (h2_open <$> heap pooled !! 0%nat) = Some true /\
  (h2_open <$> heap (world (disconnect pooled)) !! 0%nat) = Some false /\
  _http2Clients (this (world (disconnect pooled))) = _http2Clients (this pooled).
Proof.
  assert (Hin : (js "https://example.com", 0%nat) ∈ _http2Clients (this pooled))
    by (vm_compute; apply list_elem_of_here).
  split; [reflexivity|]. split; [exact Hin|]. split; [reflexivity|].
  destruct (disconnect_closes_sessions pooled eq_refl)
    as (Hclosed & Htable & _).
  split; [|exact Htable].
  destruct (Hclosed _ _ Hin) as [_ Hopen].
  destruct (heap (world (disconnect pooled)) !! 0%nat) as [session|] eqn:E.
  - simpl. rewrite (Hopen session eq_refl). reflexivity.
  - vm_compute in E. discriminate E.
Defined.

(** C9.  The validation of the routing key accepts the empty key: when
    the key extracted from the destination is empty, as it is for a
    destination equal to the local address, for one no longer than the
    local address and its separator, and for one with a dot right after
    the separator, [_generateUrl] does not raise the invalid-address error
    and returns the base URL with the delimiter replaced by the empty
    string. *)
Theorem empty_routing_key_accepted env dest w ildcp w1 t1 :
  _fetchIldcp env w = (Normal ildcp, w1, t1) ->
  let key := leading dot (drop (length (clientAddress ildcp) + 1) dest) in
  (key = [] ->
   _generateUrl env dest w
   = (Normal (replace (_multiDelimiter (this w)) [] (_url (this w))), w1, t1) /\
   forall pre post,
     first_occurrence (_multiDelimiter (this w)) (_url (this w)) pre post ->
     replace (_multiDelimiter (this w)) [] (_url (this w)) = pre ++ post) /\
  (dest = clientAddress ildcp -> key = []) /\
  ((length dest <= length (clientAddress ildcp) + 1)%nat -> key = []) /\
  (forall sep rest, dest = clientAddress ildcp ++ sep :: dot :: rest -> key = []).
Proof.
  intros Hi key. split; [|split; [|split]].
  - intros Hkey. rewrite (generateUrl_run env dest w ildcp w1 t1 Hi).
    subst key. rewrite Hkey. split; [reflexivity|].
    intros pre post Hocc.
    rewrite (replace_first_occurrence _ [] _ pre post Hocc);
      [reflexivity | apply not_elem_of_nil].
  - intros ->. apply leading_short. lia.
  - apply leading_short.
  - intros sep rest ->. subst key. rewrite drop_address. reflexivity.
Qed.

(** C9 for the destination [g.node1], the local address itself. *)
Lemma empty_routing_key_accepted_witness :
  _fetchIldcp (loopback 200) node1 = (Normal node1_ildcp, node1, []) /\
  _generateUrl (loopback 200) (js "g.node1") node1
  = (Normal (js "https://example.com//ilp"), node1, []).
Proof.
  split; [reflexivity|].
  destruct (empty_routing_key_accepted (loopback 200) (js "g.node1") node1
              node1_ildcp node1 [] eq_refl) as [H _].
  exact (proj1 (H eq_refl)).
Defined.

(** C10.  On a connected multi-tenant plugin, the body of every
    authenticated request that is not a health probe is deserialized as a
    Prepare packet right after it has been read, before the handler slot
    is looked at; a body that the deserializer rejects makes the request
    fail with that rejection, and the handler is not invoked. *)
Theorem multi_tenant_body_must_be_prepare env ctx w :
  ctx_method ctx <> js "GET" ->
  verifyToken env (ctx_get ctx (js "authorization")) = true ->
  _connected (this w) = true ->
  _multi (this w) = true ->
  N.of_nat (length (ctx_req ctx)) <= MAX_ILP_PACKET_LENGTH ->
  let run := middleware env ctx w in
  let before :=
    [EvVerifyToken (ctx_get ctx (js "authorization")); EvReadBody;
     EvIlpDeserialize (ctx_req ctx)] in
  (exists rest, trace run = before ++ rest) /\
  (forall reason,
      deserializeIlpPrepare env (ctx_req ctx) = Rejected reason ->
      run = (Throw (Foreign IlpPacket reason), w, before) /\
      no_handler_call (trace run) /\
      res_status (respond (result run)) = 500).
Proof.
  intros Hm Hv Hc Hmulti Hlen run before.
  pose proof (middleware_multi env ctx w Hm Hv Hc Hmulti Hlen) as Hrun.
  fold run in Hrun. fold before in Hrun. split.
  - rewrite Hrun. rewrite trace_after. eauto.
  - intros reason Hr. rewrite Hr in Hrun. rewrite Hrun.
    unfold after. simpl. rewrite ?app_nil_r.
    split; [reflexivity|]. split; [|reflexivity].
    repeat constructor.
Qed.

(** C10 for a Fulfill packet sent to a multi-tenant node with a handler
    registered. *)
Lemma multi_tenant_body_must_be_prepare_witness :
  let env := loopback 200 in
  let w := world (registerDataHandler node1_handler node1) in
  let ctx := post (js "Bearer in") (js "alice") (Wire.serializeIlpFulfill []) in
  ctx_method ctx <> js "GET" /\
  verifyToken env (ctx_get ctx (js "authorization")) = true /\
  _connected (this w) = true /\
  _multi (this w) = true /\
  N.of_nat (length (ctx_req ctx)) <= MAX_ILP_PACKET_LENGTH /\
  deserializeIlpPrepare env (ctx_req ctx)
  = Rejected (js "Packet has incorrect type") /\
  result (middleware env ctx w)
  = Throw (Foreign IlpPacket (js "Packet has incorrect type")) /\
  no_handler_call (trace (middleware env ctx w)).
Proof.
  intros env w ctx.
  assert (Hm : ctx_method ctx <> js "GET") by (vm_compute; discriminate).
  assert (Hlen : N.of_nat (length (ctx_req ctx)) <= MAX_ILP_PACKET_LENGTH)
    by (vm_compute; discriminate).
  split; [exact Hm|]. split; [reflexivity|]. split; [reflexivity|].
  split; [reflexivity|]. split; [exact Hlen|]. split; [reflexivity|].
  destruct (multi_tenant_body_must_be_prepare env ctx w
              Hm eq_refl eq_refl eq_refl Hlen) as [_ Hbad].
  destruct (Hbad _ eq_refl) as (Hrun & Hquiet & _).
  split; [rewrite Hrun; reflexivity | exact Hquiet].
Defined.

(** * Further properties *)

(** ** The lifecycle *)

Lemma connect_run w :
  connect w =
    if _connected (this w) then (Normal tt, w, [])
    else
      (Normal tt,
       {| this :=
            set_connected true
              (set_httpServer
                 (Some {| srv_port := _port (this w); srv_listening := true |})
                 (this w));
          heap := heap w |},
       [EvListen (_port (this w)); EvEmit (js "connect")]).
Proof.
  unfold connect. rewrite bind_get_this.
  destruct (_connected (this w)); [reflexivity|].
  rewrite bind_emit, bind_update_this, bind_update_this. reflexivity.
Qed.

Lemma disconnect_noop w :
  _connected (this w) = false -> disconnect w = (Normal tt, w, []).
Proof.
  intros H. unfold disconnect. rewrite bind_get_this, H. reflexivity.
Qed.

(** The world after [disconnect], whether it ends normally or not. *)
Lemma disconnect_world w :
  _connected (this w) = true ->
  exists server,
    world (disconnect w)
    = {| this := set_httpServer server (set_connected false (this w));
         heap := close_refs (Obj.values (_http2Clients (this w))) (heap w) |}.
Proof.
  intros Hc. rewrite (disconnect_run w Hc). cbv zeta.
  destruct (_httpServer (this w)) as [server|] eqn:E.
  - eexists. reflexivity.
  - exists None. unfold world. simpl. f_equal.
    destruct (this w). simpl in *. subst. reflexivity.
Qed.


(** X2.  After [disconnect] the plugin is disconnected, and a second
    [disconnect] does nothing: it closes no session and no listener and
    emits no event.  [disconnect] leaves the configuration, the session
    table, the configuration cache and the registered handler as they
    were. *)
Theorem repeated_disconnect_is_noop w :
  let w1 := world (disconnect w) in
  _connected (this w1) = false /\
  disconnect w1 = (Normal tt, w1, []) /\
  configuration (this w1) = configuration (this w) /\
  _http2Clients (this w1) = _http2Clients (this w) /\
  _ildcp (this w1) = _ildcp (this w) /\
  _dataHandler (this w1) = _dataHandler (this w).
Proof.
  intros w1. subst w1. destruct (_connected (this w)) eqn:Hc.
  - destruct (disconnect_world w Hc) as [server ->].
    split; [reflexivity|]. split; [apply disconnect_noop; reflexivity|].
    repeat split; reflexivity.
  - rewrite (disconnect_noop w Hc). unfold world. simpl.
    split; [exact Hc|]. split; [apply disconnect_noop, Hc|].
    repeat split; reflexivity.
Qed.



(** ** What the calls leave alone *)

Section Frame.

(** A property of the world that the configuration cache and the session
    table keep when they are filled. *)
Variable P : World -> Prop.
Variable env : Collaborators.
Hypothesis P_fetchIldcp : preserves P (_fetchIldcp env).
Hypothesis P_session : forall origin,
    preserves P (_getHttp2ClientForOrigin origin).

Lemma frame_generateUrl dest : preserves P (_generateUrl env dest).
Proof.
  unfold _generateUrl. apply preserves_bind; [exact P_fetchIldcp|].
  preserve.
Qed.

Lemma frame_fetch url opts : preserves P (_fetch env url opts).
Proof. unfold _fetch, Http2Client_fetch, fetch. preserve. Qed.

Lemma frame_sendData packet : preserves P (sendData env packet).
Proof.
  unfold sendData, _getToken, IlpPacket_deserializeIlpPrepare.
  pose proof frame_generateUrl. pose proof frame_fetch.
  preserve.
Qed.

Lemma frame_middleware ctx : preserves P (middleware env ctx).
Proof.
  unfold middleware, _verifyToken, raw, IlpPacket_deserializeIlpPrepare,
    call_handler.
  preserve.
Qed.

End Frame.

Section FieldFrame.

(** A field of the plugin that neither the assignment to the cache nor
    the assignment to the session table changes. *)
Context {V : Type}.
Variable field : PluginHttp -> V.
Hypothesis field_ildcp : forall i p, field (set_ildcp i p) = field p.
Hypothesis field_clients : forall c p, field (set_http2Clients c p) = field p.
Variable env : Collaborators.

Lemma field_fetchIldcp v :
  preserves (fun w => field (this w) = v) (_fetchIldcp env).
Proof.
  intros w H. destruct (fetchIldcp_frame env w) as [cache ->]. simpl.
  rewrite field_ildcp. exact H.
Qed.

Lemma field_session v origin :
  preserves (fun w => field (this w) = v) (_getHttp2ClientForOrigin origin).
Proof.
  intros w H. destruct (Obj.get (_http2Clients (this w)) origin) as [r|] eqn:E.
  - rewrite (getClient_hit _ _ _ E). exact H.
  - rewrite (getClient_miss _ _ E). unfold world, with_session. simpl.
    rewrite field_clients. exact H.
Qed.

Lemma field_sendData packet w :
  field (this (world (sendData env packet w))) = field (this w).
Proof.
  exact (frame_sendData (fun w0 => field (this w0) = field (this w)) env
           (field_fetchIldcp _) (field_session _) packet w eq_refl).
Qed.

Lemma field_middleware ctx w :
  field (this (world (middleware env ctx w))) = field (this w).
Proof.
  exact (frame_middleware (fun w0 => field (this w0) = field (this w)) env
           (field_fetchIldcp _) ctx w eq_refl).
Qed.

End FieldFrame.

(** X4.  Traffic never changes the lifecycle state: neither [sendData] nor
    an inbound request, whatever they end with, changes whether the
    plugin is connected, which handler is registered, the listener, or
    the configuration. *)
Theorem traffic_keeps_lifecycle_state env w :
  (forall packet,
      let w' := world (sendData env packet w) in
      _connected (this w') = _connected (this w) /\
      _dataHandler (this w') = _dataHandler (this w) /\
      _httpServer (this w') = _httpServer (this w) /\
      configuration (this w') = configuration (this w)) /\
  (forall ctx,
      let w' := world (middleware env ctx w) in
      _connected (this w') = _connected (this w) /\
      _dataHandler (this w') = _dataHandler (this w) /\
      _httpServer (this w') = _httpServer (this w) /\
      configuration (this w') = configuration (this w)).
Proof.
  split; intros x w'; subst w'; repeat split;
    first [ apply field_sendData | apply field_middleware ];
    intros; reflexivity.
Qed.

Lemma run_call_configuration env c w :
  configuration (this (run_call env c w)) = configuration (this w).
Proof.
  destruct c; simpl.
  - rewrite connect_run. destruct (_connected (this w)); reflexivity.
  - destruct (_connected (this w)) eqn:Hc.
    + destruct (disconnect_world w Hc) as [server ->]. reflexivity.
    + rewrite (disconnect_noop w Hc). reflexivity.
  - apply field_sendData; intros; reflexivity.
  - apply field_middleware; intros; reflexivity.
  - reflexivity.
  - reflexivity.
  - reflexivity.
  - reflexivity.
  - reflexivity.
Qed.

(** X5.  The configuration is fixed at construction: in every world that
    calls lead to, the mode, the delimiter, the port, the base URL, the
    transport, the request limit, the peer name and the forwarding flag
    are as the constructor set them.  In particular the delimiter is
    never empty, and it is [%] when none or the empty string was given. *)
Theorem configuration_is_immutable env opts w :
  reachable env opts w ->
  configuration (this w) = configuration (constructor opts) /\
  _multiDelimiter (this w) <> [] /\
  (multiDelimiter opts = None \/ multiDelimiter opts = Some [] ->
   _multiDelimiter (this w) = js "%").
Proof.
  intros Hr.
  assert (Hc : configuration (this w) = configuration (constructor opts)).
  { induction Hr as [|w c _ IH]; [reflexivity|].
    rewrite run_call_configuration. exact IH. }
  split; [exact Hc|].
  assert (Hd : _multiDelimiter (this w)
               = or_default (multiDelimiter opts) (js "%")).
  { exact (f_equal (fun c => snd (fst (fst (fst (fst (fst (fst c))))))) Hc). }
  rewrite Hd. split.
  - destruct (multiDelimiter opts) as [[|c s]|]; discriminate.
  - intros [->| ->]; reflexivity.
Qed.

(** X5 on the pooled node, after [connect] and one [sendData]. *)
Lemma configuration_is_immutable_witness :
  let env := loopback 200 in
  let opts := node1_opts false true (js "https://example.com/ilp") in
  reachable env opts pooled /\
  _multiDelimiter (this pooled) = js "%" /\
  _url (this pooled) = js "https://example.com/ilp".
Proof.
  intros env opts.
  assert (Hr : reachable env opts pooled).
  { exact (reachable_call env opts _
             (CallSendData (Wire.prepare_to (js "g.peer.bob") []))
             (reachable_call env opts _ CallConnect
                (reachable_start env opts))). }
  split; [exact Hr|].
  destruct (configuration_is_immutable env opts pooled Hr) as (Hc & _ & Hd).
  split; [apply Hd; left; reflexivity|].
  exact (f_equal (fun c => snd (fst (fst (fst (fst c))))) Hc).
Defined.

(** ** The configuration cache *)

(** X6.  [_fetchIldcp] caches what it returns: when it ends normally, its
    response is in the cache afterwards and the next call returns it
    without any event.  It never touches the network, and when the cache
    was empty the response was obtained by one invocation of the
    registered handler, with the discovery request. *)
Theorem discovery_is_cached env w i w1 t :
  _fetchIldcp env w = (Normal i, w1, t) ->
  _ildcp (this w1) = Some i /\
  _fetchIldcp env w1 = (Normal i, w1, []) /\
  no_network t /\
  (_ildcp (this w) = None ->
   t = [EvHandler (serializeIldcpRequest env)]).
Proof.
  intros H.
  assert (Hq : no_network t).
  { pose proof (fetchIldcp_quiet env w) as Hq. rewrite H in Hq. exact Hq. }
  destruct (_ildcp (this w)) as [cached|] eqn:E.
  - rewrite (fetchIldcp_cached env w cached E) in H. injection H as <- <- <-.
    split; [exact E|]. split; [apply fetchIldcp_cached, E|].
    split; [exact Hq|]. discriminate.
  - destruct (_dataHandler (this w)) as [handler|] eqn:Eh.
    + rewrite (fetchIldcp_discover env w handler E Eh) in H.
      destruct (handler _); [|discriminate].
      destruct (deserializeIldcpResponse _ _); [|discriminate].
      injection H as <- <- <-.
      split; [reflexivity|]. split; [apply fetchIldcp_cached; reflexivity|].
      split; [exact Hq|]. reflexivity.
    + rewrite (fetchIldcp_no_handler env w E Eh) in H. discriminate.
Qed.

(** X6 on the multi-tenant node whose cache is empty: one invocation of
    the handler, then none. *)
Lemma discovery_is_cached_witness :
  let env := loopback 200 in
  let w1 := world (_fetchIldcp env fresh_multi_tenant) in
  _ildcp (this fresh_multi_tenant) = None /\
  _fetchIldcp env fresh_multi_tenant
  = (Normal node1_ildcp, w1, [EvHandler Wire.serializeIldcpRequest]) /\
  _fetchIldcp env w1 = (Normal node1_ildcp, w1, []).
Proof.
  intros env w1.
  assert (H : _fetchIldcp env fresh_multi_tenant
              = (Normal node1_ildcp, w1, [EvHandler Wire.serializeIldcpRequest]))
    by reflexivity.
  split; [reflexivity|]. split; [exact H|].
  exact (proj1 (proj2 (discovery_is_cached env _ _ _ _ H))).
Defined.

Lemma run_call_cache env c w i :
  _ildcp (this w) = Some i -> _ildcp (this (run_call env c w)) = Some i.
Proof.
  intros H.
  assert (Hf : preserves (fun w0 => _ildcp (this w0) = Some i) (_fetchIldcp env)).
  { intros w0 H0. rewrite (fetchIldcp_cached env w0 i H0). exact H0. }
  assert (Hs : forall origin,
             preserves (fun w0 => _ildcp (this w0) = Some i)
               (_getHttp2ClientForOrigin origin)).
  { intros origin. apply (field_session _ildcp); intros; reflexivity. }
  destruct c; simpl.
  - rewrite connect_run. destruct (_connected (this w)); exact H.
  - destruct (_connected (this w)) eqn:Hc.
    + destruct (disconnect_world w Hc) as [server ->]. exact H.
    + rewrite (disconnect_noop w Hc). exact H.
  - exact (frame_sendData _ env Hf Hs packet w H).
  - exact (frame_middleware _ env Hf ctx w H).
  - exact H.
  - exact H.
  - exact H.
  - exact H.
  - exact H.
Qed.

(** X7.  The configuration cache, once filled, is never refreshed or
    cleared: whatever calls follow, among them [disconnect], [connect]
    and the deregistration of the handler, the cache holds the same
    response and [_fetchIldcp] returns it without any event. *)
Theorem cache_is_never_refreshed env calls w i :
  _ildcp (this w) = Some i ->
  let w' := run_calls env calls w in
  _ildcp (this w') = Some i /\
  _fetchIldcp env w' = (Normal i, w', []).
Proof.
  intros H w'.
  assert (H' : _ildcp (this w') = Some i).
  { subst w'. revert w H.
    induction calls as [|c calls IH]; intros w H; [exact H|].
    apply IH, run_call_cache, H. }
  split; [exact H'|]. apply fetchIldcp_cached, H'.
Qed.

(** X7 for a response given at construction, through a whole life of the
    plugin. *)
Lemma cache_is_never_refreshed_witness :
  let env := loopback 200 in
  let opts := node1_opts false true (js "https://example.com/ilp") in
  let calls :=
    [CallConnect; CallSendData (Wire.prepare_to (js "g.peer.bob") []);
     CallDeregisterDataHandler; CallDisconnect] in
  _ildcp (this (start opts)) = Some node1_ildcp /\
  _ildcp (this (run_calls env calls (start opts))) = Some node1_ildcp.
Proof.
  intros env opts calls. split; [reflexivity|].
  exact (proj1 (cache_is_never_refreshed env calls (start opts) node1_ildcp
                  eq_refl)).
Defined.

(** ** The middleware, branch by branch *)

Section InboundRun.

Variable env : Collaborators.

(** The whole decision chain of the middleware. *)
Lemma middleware_run ctx w :
  middleware env ctx w =
    let token := ctx_get ctx (js "authorization") in
    if strict_equal (ctx_method ctx) (js "GET") then
      (Normal (set_body (Text (js "OK")) ctx), w, [])
    else if negb (verifyToken env token) then
      (Throw (HttpError 401 (js "invalid authorization")), w,
       [EvVerifyToken token])
    else if negb (_connected (this w)) then
      (Throw (HttpError 502 (js "server is closed")), w, [EvVerifyToken token])
    else if MAX_ILP_PACKET_LENGTH <? N.of_nat (length (ctx_req ctx)) then
      (Throw (HttpError 413 (js "request entity too large")), w,
       [EvVerifyToken token; EvReadBody])
    else if _multi (this w) then
      after [EvVerifyToken token; EvReadBody; EvIlpDeserialize (ctx_req ctx)]
        match deserializeIlpPrepare env (ctx_req ctx) with
        | Rejected reason => (Throw (Foreign IlpPacket reason), w, [])
        | Fulfilled parsed =>
            if strict_equal (destination parsed) (js "peer.config")
            then intercepted env ctx w
            else dispatched ctx w
        end
    else after [EvVerifyToken token; EvReadBody] (dispatched ctx w).
Proof.
  cbv zeta. unfold middleware.
  destruct (strict_equal (ctx_method ctx) (js "GET")); [reflexivity|].
  unfold _verifyToken. rewrite bind_assoc, bind_emit, bind_ret.
  destruct (verifyToken env _); simpl; [|reflexivity].
  rewrite bind_get_this. destruct (_connected (this w)); simpl; [|reflexivity].
  unfold raw. rewrite bind_assoc, bind_emit.
  destruct (MAX_ILP_PACKET_LENGTH <? _); [reflexivity|].
  rewrite bind_ret. destruct (_multi (this w)).
  - unfold IlpPacket_deserializeIlpPrepare. rewrite bind_assoc, bind_emit.
    rewrite !after_after. simpl. f_equal.
    destruct (deserializeIlpPrepare env (ctx_req ctx)) as [parsed|reason].
    + rewrite (bind_await _ _ _ _ parsed eq_refl).
      destruct (strict_equal (destination parsed) (js "peer.config"));
        [reflexivity|].
      apply dispatch_run.
    + rewrite (bind_await_rejected _ _ _ _ reason eq_refl). reflexivity.
  - rewrite after_after. simpl. f_equal. apply dispatch_run.
Qed.

(** The interception, by what the configuration cache gives. *)
Lemma intercepted_run ctx w :
  intercepted env ctx w =
    match _fetchIldcp env w with
    | (Normal ildcp, w1, t) =>
        (match serializeIldcpResponse env
                 (with_clientAddress
                    (clientAddress ildcp ++ js "."
                       ++ ctx_get ctx (js "ilp-peer-name")) ildcp)
         with
         | Fulfilled answer => Normal (set_body (Binary answer) ctx)
         | Rejected reason => Throw (Foreign ILDCP reason)
         end, w1, t)
    | (Throw e, w1, t) => (Throw e, w1, t)
    end.
Proof.
  unfold intercepted.
  destruct (_fetchIldcp env w) as [[[ildcp|e] w1] t] eqn:E.
  - rewrite (bind_run _ _ _ _ _ _ E).
    destruct (serializeIldcpResponse env _) as [answer|reason].
    + rewrite (bind_await _ _ _ _ answer eq_refl). unfold after, ret. simpl.
      rewrite app_nil_r. reflexivity.
    + rewrite (bind_await_rejected _ _ _ _ reason eq_refl). unfold after.
      simpl. rewrite app_nil_r. reflexivity.
  - apply bind_run_throw, E.
Qed.

(** What [_fetchIldcp] can end with, and what it leaves in the trace. *)
Lemma fetchIldcp_cases w :
  (exists cached,
      _ildcp (this w) = Some cached /\
      _fetchIldcp env w = (Normal cached, w, [])) \/
  (_ildcp (this w) = None /\ _dataHandler (this w) = None /\
   _fetchIldcp env w
   = (Throw (Error (js "data handler must be registered to fetch ildcp")),
      w, [])) \/
  (_ildcp (this w) = None /\
   exists c w1,
     _fetchIldcp env w = (c, w1, [EvHandler (serializeIldcpRequest env)]) /\
     match c with
     | Normal fetched => _ildcp (this w1) = Some fetched
     | Throw (Foreign _ _) => w1 = w
     | Throw _ => False
     end).
Proof.
  destruct (_ildcp (this w)) as [cached|] eqn:E.
  - left. exists cached. split; [reflexivity|]. apply fetchIldcp_cached, E.
  - right. destruct (_dataHandler (this w)) as [handler|] eqn:Eh.
    + right. split; [reflexivity|].
      rewrite (fetchIldcp_discover env w handler E Eh).
      destruct (handler _); [destruct (deserializeIldcpResponse _ _)|];
        eexists; eexists; (split; [reflexivity|]); reflexivity.
    + left. split; [reflexivity|]. split; [reflexivity|].
      apply fetchIldcp_no_handler; assumption.
Qed.

End InboundRun.

Section InboundProperties.

Variable env : Collaborators.

Lemma middleware_discovery ctx w prepare :
  discovery_request env ctx w prepare ->
  middleware env ctx w =
    after [EvVerifyToken (ctx_get ctx (js "authorization")); EvReadBody;
           EvIlpDeserialize (ctx_req ctx)]
      (intercepted env ctx w).
Proof.
  intros (Hm & Hv & Hc & Hmulti & Hlen & Hp & Hd).
  rewrite middleware_run. cbv zeta.
  apply N.ltb_ge in Hlen.
  rewrite (strict_equal_neq _ _ Hm), Hv, Hc, Hmulti, Hp, Hlen. simpl.
  rewrite Hd, strict_equal_refl. reflexivity.
Qed.

Lemma intercepted_normal ctx w c :
  result (intercepted env ctx w) = Normal c ->
  exists cached, _ildcp (this (world (intercepted env ctx w))) = Some cached.
Proof.
  rewrite intercepted_run.
  destruct (fetchIldcp_cases env w)
    as [(cached & Hc & ->)|[(_ & _ & ->)|(_ & c0 & w1 & -> & Hc)]].
  - intros _. exists cached. exact Hc.
  - discriminate.
  - destruct c0 as [fetched|e]; [|discriminate].
    intros _. exists fetched. exact Hc.
Qed.

Lemma intercepted_cached ctx w cached :
  _ildcp (this w) = Some cached ->
  world (intercepted env ctx w) = w /\ trace (intercepted env ctx w) = [].
Proof.
  intros H. rewrite intercepted_run, (fetchIldcp_cached env w cached H).
  split; reflexivity.
Qed.

End InboundProperties.

(** X8.  A request that is not a health probe and whose token is not
    verified is answered 401 with the message [invalid authorization],
    whether the plugin is connected or not and before the body is read;
    the world is unchanged. *)
Theorem unauthenticated_is_401 env ctx w :
  ctx_method ctx <> js "GET" ->
  verifyToken env (ctx_get ctx (js "authorization")) = false ->
  middleware env ctx w
  = (Throw (HttpError 401 (js "invalid authorization")), w,
     [EvVerifyToken (ctx_get ctx (js "authorization"))]) /\
  respond (result (middleware env ctx w))
  = {| res_status := 401; res_body := Text (js "invalid authorization") |}.
Proof.
  intros Hm Hv.
  assert (middleware env ctx w
          = (Throw (HttpError 401 (js "invalid authorization")), w,
             [EvVerifyToken (ctx_get ctx (js "authorization"))])) as ->.
  { rewrite middleware_run. cbv zeta.
    rewrite (strict_equal_neq _ _ Hm), Hv. reflexivity. }
  split; reflexivity.
Qed.

(** X8 for a wrong token, on the disconnected and on the connected node. *)
Lemma unauthenticated_is_401_witness :
  let ctx :=
    post (js "Bearer wrong") (js "alice")
      (Wire.prepare_to (js "g.node1.alice.123") []) in
  ctx_method ctx <> js "GET" /\
  verifyToken (loopback 200) (ctx_get ctx (js "authorization")) = false /\
  _connected (this node1_closed) = false /\
  res_status (respond (result (middleware (loopback 200) ctx node1_closed)))
  = 401 /\
  res_status (respond (result (middleware (loopback 200) ctx node1))) = 401.
Proof.
  intros ctx.
  assert (Hm : ctx_method ctx <> js "GET") by (vm_compute; discriminate).
  split; [exact Hm|]. split; [reflexivity|]. split; [reflexivity|].
  split.
  - rewrite (proj2 (unauthenticated_is_401 (loopback 200) ctx node1_closed
                      Hm eq_refl)). reflexivity.
  - rewrite (proj2 (unauthenticated_is_401 (loopback 200) ctx node1
                      Hm eq_refl)). reflexivity.
Defined.



(** X10.  The size limit: an authenticated request to a connected plugin
    whose body is longer than [MAX_ILP_PACKET_LENGTH], 32767 bytes, is
    answered 413 by the body reader; the body is neither deserialized nor
    handed to the handler, and the world is unchanged. *)
Theorem oversized_body_is_413 env ctx w :
  ctx_method ctx <> js "GET" ->
  verifyToken env (ctx_get ctx (js "authorization")) = true ->
  _connected (this w) = true ->
  MAX_ILP_PACKET_LENGTH < N.of_nat (length (ctx_req ctx)) ->
  middleware env ctx w
  = (Throw (HttpError 413 (js "request entity too large")), w,
     [EvVerifyToken (ctx_get ctx (js "authorization")); EvReadBody]) /\
  res_status (respond (result (middleware env ctx w))) = 413 /\
  handler_calls (trace (middleware env ctx w)) = [].
Proof.
  intros Hm Hv Hc Hlen.
  assert (middleware env ctx w
          = (Throw (HttpError 413 (js "request entity too large")), w,
             [EvVerifyToken (ctx_get ctx (js "authorization")); EvReadBody]))
    as ->.
  { rewrite middleware_run. cbv zeta.
    rewrite (strict_equal_neq _ _ Hm), Hv, Hc. simpl.
    apply N.ltb_lt in Hlen. rewrite Hlen. reflexivity. }
  repeat split; reflexivity.
Qed.

(** X10 for a body of 32768 bytes. *)
Lemma oversized_body_is_413_witness :
  let env := loopback 200 in
  let w := world (registerDataHandler node1_handler node1) in
  let ctx := post (js "Bearer in") (js "alice") (blank 32768) in
  ctx_method ctx <> js "GET" /\
  verifyToken env (ctx_get ctx (js "authorization")) = true /\
  _connected (this w) = true /\
  MAX_ILP_PACKET_LENGTH < N.of_nat (length (ctx_req ctx)) /\
  res_status (respond (result (middleware env ctx w))) = 413.
Proof.
  intros env w ctx.
  assert (Hm : ctx_method ctx <> js "GET") by (vm_compute; discriminate).
  assert (Hlen : MAX_ILP_PACKET_LENGTH < N.of_nat (length (ctx_req ctx)))
    by (vm_compute; reflexivity).
  split; [exact Hm|]. split; [reflexivity|]. split; [reflexivity|].
  split; [exact Hlen|].
  exact (proj1 (proj2 (oversized_body_is_413 env ctx w Hm eq_refl eq_refl Hlen))).
Defined.

Section InboundTotals.

Variable env : Collaborators.





Lemma handler_calls_app t1 t2 :
  handler_calls (t1 ++ t2) = handler_calls t1 ++ handler_calls t2.
Proof. apply omap_app. Qed.

Lemma intercepted_handler_calls ctx w :
  handler_calls (trace (intercepted env ctx w)) = [] \/
  _ildcp (this w) = None /\
  handler_calls (trace (intercepted env ctx w)) = [serializeIldcpRequest env].
Proof.
  rewrite intercepted_run.
  destruct (fetchIldcp_cases env w)
    as [(cached & _ & ->)|[(_ & _ & ->)|(Hn & c & w1 & -> & Hc)]].
  - left. reflexivity.
  - left. reflexivity.
  - right. split; [exact Hn|]. destruct c; reflexivity.
Qed.

End InboundTotals.


(** X12.  One request invokes the handler at most once: not at all, or
    once with the raw body of the request, or, only in multi-tenant mode
    with an empty cache, once with the discovery request. *)
Theorem handler_invoked_at_most_once env ctx w :
  let calls := handler_calls (trace (middleware env ctx w)) in
  calls = [] \/
  calls = [ctx_req ctx] \/
  (_multi (this w) = true /\ _ildcp (this w) = None /\
   calls = [serializeIldcpRequest env]).
Proof.
  cbv zeta. rewrite middleware_run. cbv zeta.
  destruct (strict_equal _ _); [left; reflexivity|].
  destruct (negb (verifyToken env _)); [left; reflexivity|].
  destruct (negb (_connected (this w))); [left; reflexivity|].
  destruct (MAX_ILP_PACKET_LENGTH <? _); [left; reflexivity|].
  assert (Hd : handler_calls (trace (dispatched ctx w)) = [] \/
               handler_calls (trace (dispatched ctx w)) = [ctx_req ctx]).
  { unfold dispatched. destruct (_dataHandler (this w)); [right|left];
      reflexivity. }
  destruct (_multi (this w)); rewrite trace_after, handler_calls_app; simpl.
  - destruct (deserializeIlpPrepare env (ctx_req ctx)) as [parsed|reason];
      [|left; reflexivity].
    destruct (strict_equal _ _).
    + destruct (intercepted_handler_calls env ctx w) as [->|[Hn ->]];
        [left; reflexivity|].
      right. right. repeat split; assumption.
    + destruct Hd as [->| ->]; [left | right; left]; reflexivity.
  - destruct Hd as [->| ->]; [left | right; left]; reflexivity.
Qed.

(** X13.  Discovery costs at most one round trip through the handler: once
    a discovery request was answered normally the cache is filled, and a
    further discovery request is answered from it, 200 with the cached
    response under the cached address suffixed with the peer name of that
    request, without any invocation of the handler and without a change
    of the world. *)
Theorem discovery_round_trip_happens_once env ctx1 ctx2 w p1 p2 c1 :
  discovery_request env ctx1 w p1 ->
  discovery_request env ctx2 w p2 ->
  result (middleware env ctx1 w) = Normal c1 ->
  let w1 := world (middleware env ctx1 w) in
  exists cached,
    _ildcp (this w1) = Some cached /\
    handler_calls (trace (middleware env ctx2 w1)) = [] /\
    world (middleware env ctx2 w1) = w1 /\
    forall answer,
      serializeIldcpResponse env
        (with_clientAddress
           (clientAddress cached ++ js "."
              ++ ctx_get ctx2 (js "ilp-peer-name")) cached)
      = Fulfilled answer ->
      respond (result (middleware env ctx2 w1))
      = {| res_status := 200; res_body := Binary answer |}.
Proof.
  intros H1 H2 Hn w1. subst w1.
  assert (H2' : discovery_request env ctx2 (world (middleware env ctx1 w)) p2).
  { destruct H2 as (Hm & Hv & Hc & Hmulti & Hrest).
    split; [exact Hm|]. split; [exact Hv|]. split; [|split; [|exact Hrest]].
    - rewrite (field_middleware _connected (fun _ _ => eq_refl)). exact Hc.
    - rewrite (field_middleware _multi (fun _ _ => eq_refl)). exact Hmulti. }
  rewrite (middleware_discovery env ctx1 w p1 H1) in *.
  rewrite result_after in Hn. rewrite world_after in *.
  destruct (intercepted_normal env ctx1 w c1 Hn) as [cached Hcache].
  exists cached. split; [exact Hcache|].
  rewrite (middleware_discovery env ctx2 _ p2 H2').
  rewrite trace_after, world_after, result_after.
  destruct (intercepted_cached env ctx2 _ cached Hcache) as [Hw Ht].
  rewrite Ht, Hw. split; [reflexivity|]. split; [reflexivity|].
  intros answer Ha. rewrite intercepted_run.
  rewrite (fetchIldcp_cached env _ cached Hcache), Ha. reflexivity.
Qed.

(** X13 for two discovery requests in a row to a node whose cache is
    empty. *)
Lemma discovery_round_trip_happens_once_witness :
  let env := loopback 200 in
  let ctx := post (js "Bearer in") (js "alice") Wire.serializeIldcpRequest in
  let w1 := world (middleware env ctx fresh_multi_tenant) in
  _ildcp (this fresh_multi_tenant) = None /\
  handler_calls (trace (middleware env ctx fresh_multi_tenant))
  = [Wire.serializeIldcpRequest] /\
  _ildcp (this w1) = Some node1_ildcp /\
  handler_calls (trace (middleware env ctx w1)) = [].
Proof.
  intros env ctx w1.
  assert (Hreq : discovery_request env ctx fresh_multi_tenant
                   {| amount := 0; executionCondition := Wire.zeros 32;
                      expiresAt := js "20301231235959999";
                      destination := js "peer.config"; data := [] |}).
  { unfold discovery_request.
    split; [vm_compute; discriminate|]. split; [reflexivity|].
    split; [reflexivity|]. split; [reflexivity|].
    split; [vm_compute; discriminate|]. split; reflexivity. }
  split; [reflexivity|]. split; [reflexivity|]. split; [reflexivity|].
  destruct (discovery_round_trip_happens_once env ctx ctx fresh_multi_tenant
              _ _ _ Hreq Hreq eq_refl) as (cached & _ & Hcalls & _).
  exact Hcalls.
Defined.

(** ** [sendData], branch by branch *)

Section OutboundRun.

Variable env : Collaborators.

(** The whole of [sendData], up to the request. *)
Lemma sendData_run packet w :
  sendData env packet w =
    if negb (_connected (this w)) then
      (Throw (Error (js "plugin is not connected.")), w, [])
    else
      match getToken env with
      | Rejected reason => (Throw (Foreign AuthGate reason), w, [EvGetToken])
      | Fulfilled token =>
          after [EvGetToken]
            (if _multi (this w) || _sendIlpDestination (this w) then
               after [EvIlpDeserialize packet]
                 match deserializeIlpPrepare env packet with
                 | Rejected reason => (Throw (Foreign IlpPacket reason), w, [])
                 | Fulfilled prepare =>
                     let headers :=
                       outgoing_headers token (_name (this w))
                         (if _sendIlpDestination (this w)
                          then Some (destination prepare) else None) in
                     if _multi (this w) then
                       match _generateUrl env (destination prepare) w with
                       | (Normal url, w1, t) =>
                           after t (post_to env url packet headers w1)
                       | (Throw e, w1, t) => (Throw e, w1, t)
                       end
                     else post_to env (_url (this w)) packet headers w
                 end
             else
               post_to env (_url (this w)) packet
                 (outgoing_headers token (_name (this w)) None) w)
      end.
Proof.
  unfold sendData. rewrite bind_get_this.
  destruct (negb (_connected (this w))); [reflexivity|].
  unfold _getToken. rewrite bind_assoc, bind_emit.
  destruct (getToken env) as [token|reason].
  2: { rewrite (bind_await_rejected _ _ _ _ reason eq_refl). reflexivity. }
  rewrite (bind_await _ _ _ _ token eq_refl), bind_get_this. f_equal.
  destruct (_multi (this w) || _sendIlpDestination (this w)) eqn:Hany.
  2: { rewrite bind_ret. reflexivity. }
  unfold IlpPacket_deserializeIlpPrepare.
  rewrite !bind_assoc, bind_emit. f_equal.
  destruct (deserializeIlpPrepare env packet) as [prepare|reason].
  2: { rewrite (bind_await_rejected _ _ _ _ reason eq_refl). reflexivity. }
  rewrite (bind_await _ _ _ _ prepare eq_refl). cbv zeta.
  destruct (_multi (this w)).
  - rewrite bind_assoc.
    destruct (_generateUrl env (destination prepare) w) as [[[url|e] w1] t]
      eqn:Eg.
    + rewrite (bind_run _ _ _ _ _ _ Eg), bind_ret.
      destruct (_sendIlpDestination (this w)); reflexivity.
    + apply bind_run_throw, Eg.
  - rewrite bind_ret. destruct (_sendIlpDestination (this w)); reflexivity.
Qed.




End OutboundRun.

(** X14.  Outside multi-tenant mode [sendData] posts to the configured URL
    as it is.  When the destination is not forwarded the packet is not
    deserialized at all, so that any bytes are sent; when it is
    forwarded, the destination of the Prepare packet goes into the
    [ILP-Destination] header verbatim, without the validation of
    multi-tenant mode. *)
Theorem static_url_outside_multi_tenant_mode env packet w token :
  _connected (this w) = true ->
  _multi (this w) = false ->
  getToken env = Fulfilled token ->
  (_sendIlpDestination (this w) = false ->
   sendData env packet w
   = after [EvGetToken]
       (post_to env (_url (this w)) packet
          (outgoing_headers token (_name (this w)) None) w)) /\
  (_sendIlpDestination (this w) = true ->
   forall prepare,
     deserializeIlpPrepare env packet = Fulfilled prepare ->
     sendData env packet w
     = after [EvGetToken; EvIlpDeserialize packet]
         (post_to env (_url (this w)) packet
            (outgoing_headers token (_name (this w))
               (Some (destination prepare))) w)).
Proof.
  intros Hc Hm Ht. rewrite sendData_run, Hc, Hm, Ht. simpl. split.
  - intros ->. reflexivity.
  - intros -> prepare ->. rewrite after_after. reflexivity.
Qed.

(** X14 for three zero bytes, which are not a packet. *)
Lemma static_url_outside_multi_tenant_mode_witness :
  let env := loopback 200 in
  let w := connected (node1_opts false false (js "https://example.com/ilp")) in
  let packet := blank 3 in
  let opts :=
    {| fp_method := js "POST"; fp_body := packet;
       fp_headers := outgoing_headers (js "Bearer out") (js "8080") None |} in
  _connected (this w) = true /\
  _multi (this w) = false /\
  _sendIlpDestination (this w) = false /\
  getToken env = Fulfilled (js "Bearer out") /\
  sendData env packet w
  = (Normal packet, w, [EvGetToken; EvFetch (js "https://example.com/ilp") opts]).
Proof.
  intros env w packet opts.
  split; [reflexivity|]. split; [reflexivity|]. split; [reflexivity|].
  split; [reflexivity|].
  rewrite (proj1 (static_url_outside_multi_tenant_mode env packet w
                    (js "Bearer out") eq_refl eq_refl eq_refl) eq_refl).
  reflexivity.
Defined.

(** X15.  The failures of [sendData] before the network, on a connected
    plugin: when no token can be obtained the call fails with that reason
    before the packet is looked at; when the packet has to be
    deserialized (multi-tenant mode, or forwarded destination) and is not
    a Prepare packet, the call fails with the reason of the deserializer;
    in multi-tenant mode with an empty cache and no handler it fails with
    the data-handler error.  Each time the world is unchanged and nothing
    is requested. *)
Theorem send_fails_before_network env packet w :
  _connected (this w) = true ->
  let run := sendData env packet w in
  (forall reason,
      getToken env = Rejected reason ->
      run = (Throw (Foreign AuthGate reason), w, [EvGetToken])) /\
  (forall token reason,
      getToken env = Fulfilled token ->
      _multi (this w) || _sendIlpDestination (this w) = true ->
      deserializeIlpPrepare env packet = Rejected reason ->
      run = (Throw (Foreign IlpPacket reason), w,
             [EvGetToken; EvIlpDeserialize packet])) /\
  (forall token prepare,
      getToken env = Fulfilled token ->
      _multi (this w) = true ->
      deserializeIlpPrepare env packet = Fulfilled prepare ->
      _ildcp (this w) = None ->
      _dataHandler (this w) = None ->
      run = (Throw (Error (js "data handler must be registered to fetch ildcp")),
             w, [EvGetToken; EvIlpDeserialize packet])).
Proof.
  intros Hc run. subst run. rewrite sendData_run, Hc. simpl.
  split; [|split].
  - intros reason ->. reflexivity.
  - intros token reason -> -> ->. reflexivity.
  - intros token prepare -> Hm -> Hi Hh. rewrite Hm. simpl.
    rewrite (generateUrl_throw env _ _ _ _ _ (fetchIldcp_no_handler env w Hi Hh)).
    reflexivity.
Qed.

(** X15 for a Fulfill packet sent by the multi-tenant node. *)
Lemma send_fails_before_network_witness :
  let env := loopback 200 in
  let packet := Wire.serializeIlpFulfill [] in
  _connected (this node1) = true /\
  getToken env = Fulfilled (js "Bearer out") /\
  _multi (this node1) || _sendIlpDestination (this node1) = true /\
  deserializeIlpPrepare env packet = Rejected (js "Packet has incorrect type") /\
  sendData env packet node1
  = (Throw (Foreign IlpPacket (js "Packet has incorrect type")), node1,
     [EvGetToken; EvIlpDeserialize packet]).
Proof.
  intros env packet.
  split; [reflexivity|]. split; [reflexivity|]. split; [reflexivity|].
  split; [reflexivity|].
  destruct (send_fails_before_network env packet node1 eq_refl) as (_ & H & _).
  exact (H _ _ eq_refl eq_refl eq_refl).
Defined.


(** X17.  The local address is skipped by length, not compared:
    [_generateUrl] gives the same result for two destinations that agree
    after the first [length clientAddress + 1] code units, so that a
    destination under another address of the same length resolves as one
    under the local address. *)
Theorem local_address_is_skipped_by_length env w ildcp w1 t1 :
  _fetchIldcp env w = (Normal ildcp, w1, t1) ->
  forall skipped rest,
    length skipped = (length (clientAddress ildcp) + 1)%nat ->
    _generateUrl env (skipped ++ rest) w
    = _generateUrl env (clientAddress ildcp ++ dot :: rest) w.
Proof.
  intros Hi skipped rest Hl.
  rewrite !(generateUrl_run env _ w ildcp w1 t1 Hi).
  rewrite drop_address, <- Hl, drop_app_length. reflexivity.
Qed.

(** X17 at the node [g.node1], for a destination under [x.other]. *)
Lemma local_address_is_skipped_by_length_witness :
  _fetchIldcp (loopback 200) node1 = (Normal node1_ildcp, node1, []) /\
  _generateUrl (loopback 200) (js "x.other.alice.123") node1
  = _generateUrl (loopback 200) (js "g.node1.alice.123") node1 /\
  result (_generateUrl (loopback 200) (js "x.other.alice.123") node1)
  = Normal (js "https://example.com/alice/ilp").
Proof.
  split; [reflexivity|]. split; [|reflexivity].
  exact (local_address_is_skipped_by_length (loopback 200) node1 node1_ildcp
           node1 [] eq_refl (js "x.other.") (js "alice.123") eq_refl).
Defined.

Lemma get_app_Some {V} (o o' : Obj.t V) k v :
  Obj.get o k = Some v -> Obj.get (o ++ o') k = Some v.
Proof.
  induction o as [|[k' v'] o IH]; simpl; [discriminate|].
  destruct (strict_equal k' k); auto.
Qed.

Lemma bound_to_step o r w w' :
  step w w' -> bound_to o r w -> bound_to o r w'.
Proof.
  intros Hstep (Hget & session & Hs & Ho). destruct Hstep as [f w Hf|o' w|r' w].
  - split; [simpl; rewrite Hf; exact Hget|]. exists session. auto.
  - destruct (Obj.get (_http2Clients (this w)) o') as [r0|] eqn:E.
    + rewrite (getClient_hit _ _ _ E). split; [exact Hget|]. eauto.
    + rewrite (getClient_miss _ _ E). unfold world, with_session. simpl.
      split; [apply get_app_Some; exact Hget|].
      exists session. split; [|exact Ho].
      apply lookup_app_l_Some. exact Hs.
  - split; [exact Hget|].
    change (heap (world (Http2Client_close r' w)))
      with (alter closed r' (heap w)).
    destruct (decide (r' = r)) as [->|Hne].
    + exists (closed session). split; [|exact Ho].
      rewrite list_lookup_alter_eq, Hs. reflexivity.
    + exists session. split; [|exact Ho].
      rewrite list_lookup_alter_ne by assumption. exact Hs.
Qed.

Lemma run_calls_preserves (P : World -> Prop) env :
  (forall w w', step w w' -> P w -> P w') ->
  forall cs w, P w -> P (run_calls env cs w).
Proof.
  intros HP cs. induction cs as [|c cs IH]; intros w H; [exact H|].
  apply IH. apply (run_call_preserves P HP). exact H.
Qed.

(** X18.  Sessions are kept for good: once the table binds an origin to a
    session, no sequence of calls removes or replaces the binding, not
    even [disconnect], which closes the session; and every later fetch
    over the multiplexed transport to a URL of that origin issues its
    request over that very session, and creates none. *)
Theorem sessions_are_kept_for_good env cs w o r :
  bound_to o r w ->
  let w' := run_calls env cs w in
  bound_to o r w' /\
  forall url u opts,
    _http2 (this w') = true ->
    parseURL env url = Fulfilled u ->
    origin u = o ->
    world (_fetch env url opts w') = w' /\
    trace (_fetch env url opts w') = [EvHttp2Fetch r (pathname u) opts].
Proof.
  intros H w'.
  assert (H' : bound_to o r w').
  { apply run_calls_preserves; [apply bound_to_step|exact H]. }
  split; [exact H'|].
  intros url u opts H2 Hu <-. destruct H' as (Hget & session & Hs & _).
  rewrite (fetch_http2_hit env _ _ _ _ _ _ H2 Hu Hget Hs). auto.
Qed.

(** X18 on the pooled node: after [disconnect] and [connect] a fetch to
    another path of the origin goes over the closed session. *)
Lemma sessions_are_kept_for_good_witness :
  let env := loopback 200 in
  let w' := run_calls env [CallDisconnect; CallConnect] pooled in
  let opts := {| fp_method := js "POST"; fp_body := []; fp_headers := [] |} in
  bound_to (js "https://example.com") 0%nat pooled /\
  _connected (this w') = true /\
  (h2_open <$> heap w' !! 0%nat) = Some false /\
  trace (_fetch env (js "https://example.com/other") opts w')
  = [EvHttp2Fetch 0%nat (js "/other") opts].
Proof.
  intros env w' opts.
  assert (H : bound_to (js "https://example.com") 0%nat pooled).
  { split; [reflexivity|]. eexists. split; reflexivity. }
  split; [exact H|]. split; [reflexivity|]. split; [reflexivity|].
  destruct (sessions_are_kept_for_good env [CallDisconnect; CallConnect]
              pooled _ _ H) as [_ Hfetch].
  exact (proj2 (Hfetch (js "https://example.com/other")
                  {| origin := js "https://example.com";
                     pathname := js "/other"; search := [] |}
                  opts eq_refl eq_refl eq_refl)).
Defined.




